(** * aws_manager: a shallow embedding of [AWSManager] and of the menu dispatcher

    The Python module drives three boto3 clients (EC2, RDS, Auto Scaling),
    writes to a logger and to a rich console.  None of that is pure, so the
    embedding is an exception-and-state monad over a [world] that records

    - every client call together with what the provider answered,
    - every log record,
    - every console action.

    The provider itself is a record of oracles that see the whole call
    history, so a theorem quantified over [provider] covers every
    deterministic behaviour of the three clients.  The logger writes
    through [RichHandler(markup=True)] and the tables are printed by
    [rich.print]: both parse console markup in the text they are given and
    raise [MarkupError] when it is malformed.  What rich makes of a text
    that holds a bracket is a second record of oracles, [renderer]. *)

From Stdlib Require Import List Ascii String ZArith Lia Bool DecimalString.
Import ListNotations.
Open Scope string_scope.
Open Scope list_scope.

(** ** Python values the code touches *)

(** Exceptions that can travel through the module.  [ClientError] is
    botocore's, and carries [e.response["Error"]["Code"]] and the text
    [str(e)]; [BotoCoreError] stands for any other exception a client
    raises (connection, credentials, parameter validation); [MarkupError]
    is rich's, and carries [str(e)].  All of them are subclasses of
    Python's [Exception]. *)
Inductive exn : Type :=
| ClientError (code msg : string)
| BotoCoreError (msg : string)
| KeyError (key : string)
| IndexError
| UnboundLocalError (var : string)
| MarkupError (msg : string)
| Exception (msg : string).

(** [str(e)], as the logging module renders an exception object. *)
Definition str_exn (e : exn) : string :=
  match e with
  | ClientError _ msg => msg
  | BotoCoreError msg => msg
  | KeyError key => "'" ++ key ++ "'"
  | IndexError => "list index out of range"
  | UnboundLocalError var =>
      "cannot access local variable '" ++ var
        ++ "' where it is not associated with a value"
  | MarkupError msg => msg
  | Exception msg => msg
  end.

(** [str(n)] for a Python int. *)
Definition str_int (n : Z) : string := NilZero.string_of_int (Z.to_int n).

(** [str(x)] for a value that is a string or [None], as an f-string
    interpolates it. *)
Definition str_opt (x : option string) : string :=
  match x with
  | Some s => s
  | None => "None"
  end.

(** A tag dictionary; the code reads it with [.get], so either key may be
    missing. *)
Record Tag : Type := mkTag {
  Key : option string;
  Value : option string
}.

(** One entry of [reservation["Instances"]].  boto3 omits the ["Tags"] key
    for an instance that carries no tag, hence the [option]. *)
Record Instance : Type := mkInstance {
  InstanceId : string;
  InstanceType : string;
  StateName : string;
  Tags : option (list Tag)
}.

Record Reservation : Type := mkReservation {
  Instances : list Instance
}.

Record DBInstance : Type := mkDBInstance {
  DBInstanceIdentifier : string;
  DBInstanceClass : string;
  DBInstanceStatus : string
}.

Record AutoScalingGroup : Type := mkAutoScalingGroup {
  AutoScalingGroupName : string;
  MinSize : Z;
  MaxSize : Z;
  DesiredCapacity : Z
}.

(** ** Client calls and their history *)

Inductive request : Type :=
| DescribeInstances
| StartInstances (ids : list string)
| StopInstances (ids : list string)
| DescribeDBInstances
| StartDBInstance (id : string)
| StopDBInstance (id : string)
| DescribeAutoScalingGroups
| UpdateAutoScalingGroup (name : string) (min_size max_size desired : Z).

Inductive reply : Type :=
| Reservations (rs : list Reservation)
| DBInstances (ds : list DBInstance)
| AutoScalingGroups (gs : list AutoScalingGroup)
| Done.

Inductive outcome : Type :=
| Returned (r : reply)
| Raised (e : exn).

Definition history : Type := list (request * outcome).

(** The three clients.  Each oracle receives the calls made so far and
    either raises or returns. *)
Record provider : Type := mkProvider {
  describe_instances : history -> exn + list Reservation;
  start_instances : history -> list string -> exn + unit;
  stop_instances : history -> list string -> exn + unit;
  describe_db_instances : history -> exn + list DBInstance;
  start_db_instance : history -> string -> exn + unit;
  stop_db_instance : history -> string -> exn + unit;
  describe_auto_scaling_groups : history -> exn + list AutoScalingGroup;
  update_auto_scaling_group : history -> string -> Z -> Z -> Z -> exn + unit
}.

(** ** Logger and console *)

Inductive level : Type := INFO | ERROR.

Definition log_record : Type := (level * string)%type.

Record Column : Type := mkColumn {
  header : string;
  justify : string;
  style : string
}.

(** A rich [Table]; its cells are strings. *)
Record Table : Type := mkTable {
  title : string;
  columns : list Column;
  rows : list (list string)
}.

Definition add_column (t : Table) (h j s : string) : Table :=
  mkTable (title t) (columns t ++ [mkColumn h j s]) (rows t).

(** The cell [Table.add_row] stores for a renderable that is a string or
    [None]: the empty string stands for [None]. *)
Definition cell_of (x : option string) : string :=
  match x with
  | Some s => s
  | None => EmptyString
  end.

Definition add_row (t : Table) (renderables : list (option string)) : Table :=
  mkTable (title t) (columns t) (rows t ++ [map cell_of renderables]).

(** ** Console markup *)

(** ["[" in text] *)
Fixpoint has_bracket (text : string) : bool :=
  match text with
  | EmptyString => false
  | String c rest => Ascii.eqb c "["%char || has_bracket rest
  end.

(** What rich does with a text that holds a bracket, and with a table one
    of whose texts does: [None] when it renders, [Some msg] when it raises
    [MarkupError] with [str(e) = msg].  rich is not part of the repository;
    the two oracles stand for its markup parser. *)
Record renderer : Type := mkRenderer {
  parse_markup : string -> option string;
  parse_table : Table -> option string
}.

(** [Text.from_markup(text)]: rich returns the text as it is when it holds
    no bracket, and parses it otherwise. *)
Definition markup_error (rich : renderer) (text : string) : option string :=
  if has_bracket text then parse_markup rich text else None.

(** The texts of a table: title, headers and cells. *)
Definition table_texts (t : Table) : list string :=
  title t :: map header (columns t) ++ List.concat (rows t).

(** [rich.print(table)]: nothing to parse when no text of the table holds
    a bracket. *)
Definition table_error (rich : renderer) (t : Table) : option string :=
  if existsb has_bracket (table_texts t) then parse_table rich t else None.

(** [FORMAT % record], with the logger's name. *)
Definition format_record (msg : string) : string :=
  "logger - " ++ msg ++ " ".

Inductive console_event : Type :=
| ClearScreen
| PrintPanel (text : string)
| PrintTable (t : Table)
| ProgressEnter
| ProgressAddTask (description : string)
| ProgressExit
| ConsoleInput (prompt : string).

(** ** The world and the monad *)

Record world : Type := mkWorld {
  calls : history;
  logged : list log_record;
  console : list console_event
}.

Definition empty_world : world := mkWorld [] [] [].

Inductive result (A : Type) : Type :=
| Return (a : A)
| Raise (e : exn).

Arguments Return {A} a.
Arguments Raise {A} e.

Definition M (A : Type) : Type := world -> result A * world.

Definition ret {A : Type} (a : A) : M A := fun w => (Return a, w).

Definition raise {A : Type} (e : exn) : M A := fun w => (Raise e, w).

Definition bind {A B : Type} (m : M A) (k : A -> M B) : M B :=
  fun w =>
    match m w with
    | (Return a, w') => k a w'
    | (Raise e, w') => (Raise e, w')
    end.

(** [try: m  except Exception as e: h e] *)
Definition try_except {A : Type} (m : M A) (h : exn -> M A) : M A :=
  fun w =>
    match m w with
    | (Return a, w') => (Return a, w')
    | (Raise e, w') => h e w'
    end.

(** [with cm: m], for a context manager whose [__exit__] runs [leave] and
    does not swallow the exception. *)
Definition with_exit {A : Type} (m : M A) (leave : M unit) : M A :=
  fun w =>
    match m w with
    | (Return a, w') =>
        match leave w' with
        | (Return _, w'') => (Return a, w'')
        | (Raise e, w'') => (Raise e, w'')
        end
    | (Raise e, w') =>
        match leave w' with
        | (Return _, w'') => (Raise e, w'')
        | (Raise e', w'') => (Raise e', w'')
        end
    end.

Declare Scope py_scope.
Delimit Scope py_scope with py.

Notation "x <- m ;; k" := (bind m (fun x => k))
  (at level 100, m at next level, right associativity) : py_scope.
Notation "m ;; k" := (bind m (fun _ => k))
  (at level 100, right associativity) : py_scope.

Open Scope py_scope.

(** [for x in xs: body x] *)
Fixpoint for_each {A : Type} (xs : list A) (body : A -> M unit) : M unit :=
  match xs with
  | [] => ret tt
  | x :: rest => body x ;; for_each rest body
  end.

(** A [for] loop that rebinds local variables: the locals are threaded
    through the iterations as [acc]. *)
Fixpoint for_fold {A S : Type} (xs : list A) (acc : S) (body : S -> A -> M S)
  : M S :=
  match xs with
  | [] => ret acc
  | x :: rest => acc' <- body acc x ;; for_fold rest acc' body
  end.

Definition push_call (w : world) (rq : request) (o : outcome) : world :=
  mkWorld (calls w ++ [(rq, o)]) (logged w) (console w).

Definition push_log (w : world) (l : level) (msg : string) : world :=
  mkWorld (calls w) (logged w ++ [(l, msg)]) (console w).

Definition push_console (w : world) (ev : console_event) : world :=
  mkWorld (calls w) (logged w) (console w ++ [ev]).

(** One client call: ask the oracle, record request and outcome, and
    return or raise accordingly. *)
Definition invoke {A : Type} (rq : request) (oracle : history -> exn + A)
  (wrap : A -> reply) : M A :=
  fun w =>
    match oracle (calls w) with
    | inr a => (Return a, push_call w rq (Returned (wrap a)))
    | inl e => (Raise e, push_call w rq (Raised e))
    end.

(** [logger.log(level, msg)]: the handler renders the formatted record
    as markup before it prints it, outside any [try] of its own, so a
    [MarkupError] reaches the caller and nothing is written. *)
Definition logger_log (rich : renderer) (l : level) (msg : string) : M unit :=
  fun w =>
    match markup_error rich (format_record msg) with
    | None => (Return tt, push_log w l msg)
    | Some err => (Raise (MarkupError err), w)
    end.

Definition logger_info (rich : renderer) (msg : string) : M unit :=
  logger_log rich INFO msg.

Definition logger_error (rich : renderer) (msg : string) : M unit :=
  logger_log rich ERROR msg.

(** A console action whose text is a literal of the module. *)
Definition emit (ev : console_event) : M unit :=
  fun w => (Return tt, push_console w ev).

(** [print(table)] *)
Definition print_table (rich : renderer) (t : Table) : M unit :=
  fun w =>
    match table_error rich t with
    | None => (Return tt, push_console w (PrintTable t))
    | Some err => (Raise (MarkupError err), w)
    end.

(** [d[key]] on a dictionary whose key may be absent. *)
Definition subscript {A : Type} (key : string) (field : option A) : M A :=
  match field with
  | Some a => ret a
  | None => raise (KeyError key)
  end.

(** [xs[0]] *)
Definition first_item {A : Type} (xs : list A) : M A :=
  match xs with
  | x :: _ => ret x
  | [] => raise IndexError
  end.

(** Reading a local variable that may not have been bound yet. *)
Definition read_local {A : Type} (var : string) (slot : option A) : M A :=
  match slot with
  | Some a => ret a
  | None => raise (UnboundLocalError var)
  end.

(** [x == 'true'] for a value that is a string or [None]. *)
Definition is_true_literal (x : option string) : bool :=
  match x with
  | Some s => String.eqb s "true"
  | None => false
  end.

(** Truthiness of a list. *)
Definition truthy {A : Type} (xs : list A) : bool :=
  match xs with
  | [] => false
  | _ :: _ => true
  end.

(** ** class AWSManager *)

Section AWSManager.

Variable rich : renderer.
Variable aws : provider.

Definition ec2_describe_instances : M (list Reservation) :=
  invoke DescribeInstances (describe_instances aws) Reservations.

Definition ec2_start_instances (ids : list string) : M unit :=
  invoke (StartInstances ids) (fun h => start_instances aws h ids) (fun _ => Done).

Definition ec2_stop_instances (ids : list string) : M unit :=
  invoke (StopInstances ids) (fun h => stop_instances aws h ids) (fun _ => Done).

Definition rds_describe_db_instances : M (list DBInstance) :=
  invoke DescribeDBInstances (describe_db_instances aws) DBInstances.

Definition rds_start_db_instance (id : string) : M unit :=
  invoke (StartDBInstance id) (fun h => start_db_instance aws h id) (fun _ => Done).

Definition rds_stop_db_instance (id : string) : M unit :=
  invoke (StopDBInstance id) (fun h => stop_db_instance aws h id) (fun _ => Done).

Definition asg_describe_auto_scaling_groups : M (list AutoScalingGroup) :=
  invoke DescribeAutoScalingGroups (describe_auto_scaling_groups aws)
    AutoScalingGroups.

Definition asg_update_auto_scaling_group (name : string)
  (min_size max_size desired : Z) : M unit :=
  invoke (UpdateAutoScalingGroup name min_size max_size desired)
    (fun h => update_auto_scaling_group aws h name min_size max_size desired)
    (fun _ => Done).

Definition start_ec2_instances : M unit :=
  try_except
    (response <- ec2_describe_instances ;;
     if truthy response then
       for_each response (fun reservation =>
         for_each (Instances reservation) (fun instance =>
           tags <- subscript "Tags" (Tags instance) ;;
           tag0 <- first_item tags ;;
           if is_true_literal (Value tag0) then ret tt
           else
             tags' <- subscript "Tags" (Tags instance) ;;
             tag0' <- first_item tags' ;;
             let instance_name := Value tag0' in
             let instance_id := InstanceId instance in
             ec2_start_instances [instance_id] ;;
             logger_info rich ("Started EC2 instance " ++ instance_id ++ " ("
                            ++ str_opt instance_name ++ ")")))
     else raise (Exception "No EC2 Instance found!"))
    (fun e => logger_error rich (str_exn e)).

Definition stop_ec2_instances : M unit :=
  try_except
    (response <- ec2_describe_instances ;;
     if truthy response then
       for_each response (fun reservation =>
         for_each (Instances reservation) (fun instance =>
           tags <- subscript "Tags" (Tags instance) ;;
           tag0 <- first_item tags ;;
           if is_true_literal (Value tag0) then ret tt
           else
             tags' <- subscript "Tags" (Tags instance) ;;
             tag0' <- first_item tags' ;;
             let instance_name := Value tag0' in
             let instance_id := InstanceId instance in
             ec2_stop_instances [instance_id] ;;
             logger_info rich ("Stopped EC2 instance " ++ instance_id ++ " ("
                            ++ str_opt instance_name ++ ")")))
     else raise (Exception "No EC2 instances found!"))
    (fun e => logger_error rich (str_exn e)).

(** [except ClientError as e: h code] around [m]; any other exception
    passes through untouched.  The handler learns the error code and can
    re-raise the exception it was given. *)
Definition try_except_ClientError {A : Type} (m : M A)
  (h : string -> exn -> M A) : M A :=
  try_except m (fun e =>
    match e with
    | ClientError code _ => h code e
    | _ => raise e
    end).

Definition start_rds_db : M unit :=
  try_except
    (response <- rds_describe_db_instances ;;
     if truthy response then
       for_each response (fun db_instance =>
         let db_instance_id := DBInstanceIdentifier db_instance in
         try_except_ClientError
           (rds_start_db_instance db_instance_id ;;
            logger_info rich ("Started RDS instance " ++ db_instance_id))
           (fun code e =>
              if String.eqb code "InvalidDBInstanceState" then
                logger_error rich ("RDS instance " ++ db_instance_id
                  ++ " cannot be started as it is not in a valid state!")
              else raise e))
     else raise (Exception "No RDS instances found."))
    (fun e => logger_error rich (str_exn e)).

Definition stop_rds_db : M unit :=
  try_except
    (response <- rds_describe_db_instances ;;
     if truthy response then
       for_each response (fun db_instance =>
         let db_instance_id := DBInstanceIdentifier db_instance in
         try_except_ClientError
           (rds_stop_db_instance db_instance_id ;;
            logger_info rich ("Stopped RDS instance " ++ db_instance_id))
           (fun code e =>
              if String.eqb code "InvalidDBInstanceState" then
                logger_error rich ("RDS instance " ++ db_instance_id
                  ++ " cannot be stopped as it is not in a valid state")
              else raise e))
     else raise (Exception "No RDS instances found."))
    (fun e => logger_error rich (str_exn e)).

Definition ec2_asg_desired_capacity (desired_count min_count max_count : Z)
  : M unit :=
  asg_response <-
    try_except asg_describe_auto_scaling_groups
      (fun e =>
         logger_error rich ("Error occurred while retrieving Auto Scaling Groups: "
                         ++ str_exn e) ;;
         raise e) ;;
  for_each asg_response (fun asg =>
    let current_capacity := DesiredCapacity asg in
    try_except
      (asg_update_auto_scaling_group (AutoScalingGroupName asg)
         min_count max_count desired_count)
      (fun e =>
         logger_error rich ("Error occurred while updating Auto Scaling Group "
                         ++ AutoScalingGroupName asg ++ ": " ++ str_exn e) ;;
         raise e) ;;
    logger_info rich ("Capacity updated for Auto Scaling Group "
                   ++ AutoScalingGroupName asg ++ ": from "
                   ++ str_int current_capacity ++ " to "
                   ++ str_int desired_count)).

Definition stop_all_resources : M unit :=
  stop_ec2_instances ;;
  stop_rds_db ;;
  ec2_asg_desired_capacity 0 0 0.

Definition start_all_resources : M unit :=
  start_ec2_instances ;;
  start_rds_db ;;
  ec2_asg_desired_capacity 0 2 1.

(** The inner loop of [check_ec2_status]: [instance_name] is rebound only
    by a tag whose key is ["Name"], and otherwise keeps whatever it held. *)
Definition scan_name_tags (tags : list Tag)
  (instance_name : option (option string)) : option (option string) :=
  fold_left
    (fun name i =>
       match Key i with
       | Some k => if String.eqb k "Name" then Some (Value i) else name
       | None => name
       end)
    tags instance_name.

(** The local [instance_name] lives in the function's frame, so it is
    carried, with the table, from one instance to the next and from one
    reservation to the next; [None] is "not bound yet". *)
Definition check_ec2_status : M Table :=
  ec2_response <- ec2_describe_instances ;;
  let table := mkTable "EC2 Instances" [] [] in
  let table := add_column table "Instance ID" "left" "cyan" in
  let table := add_column table "Instance Type" "left" "magenta" in
  let table := add_column table "Instance Name" "left" "cyan" in
  let table := add_column table "State" "left" "green" in
  if truthy ec2_response then
    frame <-
      for_fold ec2_response (None, table) (fun frame reservation =>
        for_fold (Instances reservation) frame (fun frame instance =>
          let '(instance_name, table) := frame in
          tags <- subscript "Tags" (Tags instance) ;;
          let instance_name := scan_name_tags tags instance_name in
          let instance_id := InstanceId instance in
          let instance_type := InstanceType instance in
          let state := StateName instance in
          name <- read_local "instance_name" instance_name ;;
          ret (instance_name,
               add_row table
                 [Some instance_id; Some instance_type; name; Some state]))) ;;
    ret (snd frame)
  else ret table.

Definition check_rds_status : M Table :=
  rds_response <- rds_describe_db_instances ;;
  let table := mkTable "RDS Instances" [] [] in
  let table := add_column table "DB Instance ID" "left" "cyan" in
  let table := add_column table "DB Instance Class" "left" "magenta" in
  let table := add_column table "Status" "left" "green" in
  if truthy rds_response then
    for_fold rds_response table (fun table db_instance =>
      let db_instance_id := DBInstanceIdentifier db_instance in
      let db_instance_class := DBInstanceClass db_instance in
      let db_instance_status := DBInstanceStatus db_instance in
      ret (add_row table
             [Some db_instance_id; Some db_instance_class;
              Some db_instance_status]))
  else ret table.

Definition check_asg_status : M Table :=
  asg_response <- asg_describe_auto_scaling_groups ;;
  let table := mkTable "Auto Scaling Groups" [] [] in
  let table := add_column table "ASG Name" "left" "cyan" in
  let table := add_column table "Min Capacity" "left" "magenta" in
  let table := add_column table "Max Capacity" "left" "green" in
  let table := add_column table "Desired Capacity" "left" "yellow" in
  for_fold asg_response table (fun table asg =>
    let asg_name := AutoScalingGroupName asg in
    let current_min_capacity := MinSize asg in
    let current_max_capacity := MaxSize asg in
    let current_desired_capacity := DesiredCapacity asg in
    ret (add_row table
           [Some asg_name; Some (str_int current_min_capacity);
            Some (str_int current_max_capacity);
            Some (str_int current_desired_capacity)])).

Definition check_status : M unit :=
  ec2_table <- check_ec2_status ;;
  print_table rich ec2_table ;;
  rds_table <- check_rds_status ;;
  print_table rich rds_table ;;
  asg_table <- check_asg_status ;;
  print_table rich asg_table.

(** ** The menu dispatcher *)

Definition clear_screen : M unit := emit ClearScreen.

(** [with Progress(...) as progress: progress.add_task(description); body] *)
Definition with_progress (description : string) (body : M unit) : M unit :=
  emit ProgressEnter ;;
  with_exit (emit (ProgressAddTask description) ;; body) (emit ProgressExit).

Definition run_choice (choice : string) : M unit :=
  (if String.eqb choice "0" then
     clear_screen ;;
     emit (PrintPanel "[maroon]Checking status of AWS resources![/]") ;;
     with_progress "[bold cyan]Checking Resource(EC2, RDS, ASG) status"
       check_status
   else if String.eqb choice "1" then
     with_progress "[bold cyan]Stopping all resources" stop_all_resources
   else if String.eqb choice "2" then
     with_progress "[bold cyan]Starting all resources" start_all_resources
   else if String.eqb choice "3" then
     with_progress "[bold cyan]Starting EC2 Instances" start_ec2_instances
   else if String.eqb choice "4" then
     with_progress "[bold cyan]Stopping EC2 Instances" stop_ec2_instances
   else if String.eqb choice "5" then
     with_progress "[bold cyan]Starting RDS Instance" start_rds_db
   else if String.eqb choice "6" then
     with_progress "[bold cyan]Stopping RDS Instance" stop_rds_db
   else if String.eqb choice "7" then
     with_progress "[bold cyan]Scaling Auto Scaling Group up"
       (ec2_asg_desired_capacity 1 0 1)
   else if String.eqb choice "8" then
     with_progress "[bold cyan]Scaling Auto Scaling Group down"
       (ec2_asg_desired_capacity 0 0 0)
   else ret tt) ;;
  emit (ConsoleInput
          (String "010"%char
             "[bold magenta]Press Enter to run another task...[/bold magenta]")).

End AWSManager.

(** * Vocabulary of the statements *)

(** A call that returned. *)
Definition ok (rq : request) : request * outcome := (rq, Returned Done).

(** The requests and the log records a run added to a world. *)
Definition new_calls (w w' : world) : history :=
  skipn (List.length (calls w)) (calls w').

Definition new_requests (w w' : world) : list request :=
  map fst (new_calls w w').

Definition new_logged (w w' : world) : list log_record :=
  skipn (List.length (logged w)) (logged w').

(** The log handler renders the record of [msg]. *)
Definition renders (rich : renderer) (msg : string) : Prop :=
  markup_error rich (format_record msg) = None.

(** A world with calls and log records added, the console untouched. *)
Definition extend (w : world) (cs : history) (ls : list log_record) : world :=
  mkWorld (calls w ++ cs) (logged w ++ ls) (console w).

(** ** Compute instances *)

(** The instances in the order the two nested loops visit them. *)
Definition all_instances (rs : list Reservation) : list Instance :=
  flat_map Instances rs.

(** [instance['Tags'][0]] can be evaluated. *)
Definition tagged (i : Instance) : bool :=
  match Tags i with
  | Some (_ :: _) => true
  | _ => false
  end.

(** The first tag's value is the literal ["true"]. *)
Definition marked (i : Instance) : bool :=
  match Tags i with
  | Some (t :: _) => is_true_literal (Value t)
  | _ => false
  end.

Definition unmarked (i : Instance) : bool := negb (marked i).

(** [instance['Tags'][0].get('Value')], where it can be evaluated. *)
Definition first_tag_value (i : Instance) : option string :=
  match Tags i with
  | Some (t :: _) => Value t
  | _ => None
  end.

(** The exception [instance['Tags'][0]] raises on an instance that is not
    [tagged]: the key is missing, or the list is empty. *)
Definition lookup_error (i : Instance) : exn :=
  match Tags i with
  | None => KeyError "Tags"
  | Some _ => IndexError
  end.

(** The text of the success line of the compute pass; the name it shows is
    the value of the first tag, whatever its key. *)
Definition sweep_text (verb : string) (i : Instance) : string :=
  verb ++ " EC2 instance " ++ InstanceId i ++ " ("
    ++ str_opt (first_tag_value i) ++ ")".

Definition sweep_line (verb : string) (i : Instance) : log_record :=
  (INFO, sweep_text verb i).

(** The loop body shared, up to the client method and the verb of the log
    line, by [start_ec2_instances] and [stop_ec2_instances]. *)
Definition sweep_body (rich : renderer) (mk : list string -> request)
  (oracle : history -> list string -> exn + unit) (verb : string)
  (instance : Instance) : M unit :=
  tags <- subscript "Tags" (Tags instance) ;;
  tag0 <- first_item tags ;;
  if is_true_literal (Value tag0) then ret tt
  else
    tags' <- subscript "Tags" (Tags instance) ;;
    tag0' <- first_item tags' ;;
    invoke (mk [InstanceId instance])
      (fun h => oracle h [InstanceId instance]) (fun _ => Done) ;;
    logger_info rich (verb ++ " EC2 instance " ++ InstanceId instance ++ " ("
                        ++ str_opt (Value tag0') ++ ")").

(** What one pass over a list of instances can add to the history, and how
    it ends: marked instances add nothing, every other instance adds one
    call, and the pass stops where a tag lookup or a call raises, or where
    the handler does not render the success line. *)
Inductive sweep_run (rich : renderer) (mk : list string -> request)
  (verb : string) : list Instance -> history -> result unit -> Prop :=
| sweep_done :
    sweep_run rich mk verb [] [] (Return tt)
| sweep_skip i rest tr r :
    marked i = true ->
    sweep_run rich mk verb rest tr r ->
    sweep_run rich mk verb (i :: rest) tr r
| sweep_call i rest tr r :
    tagged i = true -> marked i = false ->
    sweep_run rich mk verb rest tr r ->
    sweep_run rich mk verb (i :: rest) (ok (mk [InstanceId i]) :: tr) r
| sweep_call_raises i rest e :
    tagged i = true -> marked i = false ->
    sweep_run rich mk verb (i :: rest) [(mk [InstanceId i], Raised e)] (Raise e)
| sweep_line_raises i rest e :
    tagged i = true -> marked i = false ->
    ~ renders rich (sweep_text verb i) ->
    sweep_run rich mk verb (i :: rest) [ok (mk [InstanceId i])] (Raise e)
| sweep_lookup_raises i rest e :
    tagged i = false ->
    sweep_run rich mk verb (i :: rest) [] (Raise e).

(** The calls of a pass over [rs] in which every instance has a first tag
    and every success line is rendered: one per unmarked instance, in
    order, either all of them or up to and including the first call that
    raises. *)
Definition sweep_calls (mk : list string -> request) (rs : list Reservation)
  (tr : history) : Prop :=
  let todo := filter unmarked (all_instances rs) in
  let call i := mk [InstanceId i] in
  tr = map (fun i => ok (call i)) todo
  \/ exists pre i rest e,
       todo = pre ++ i :: rest
       /\ tr = map (fun i => ok (call i)) pre ++ [(call i, Raised e)].

Definition request_eq_dec (a b : request) : {a = b} + {a <> b}.
Proof.
  decide equality;
    try apply Z.eq_dec; try apply string_dec;
    apply (list_eq_dec string_dec).
Defined.

(** How many times a run issued the request [rq]. *)
Definition issued (rq : request) (w w' : world) : nat :=
  count_occ request_eq_dec (new_requests w w') rq.

(** The shape the two compute operations share. *)
Definition ec2_sweep (rich : renderer) (aws : provider)
  (mk : list string -> request)
  (oracle : history -> list string -> exn + unit) (verb nothing : string)
  : M unit :=
  try_except
    (response <- ec2_describe_instances aws ;;
     if truthy response then
       for_each response (fun reservation =>
         for_each (Instances reservation) (sweep_body rich mk oracle verb))
     else raise (Exception nothing))
    (fun e => logger_error rich (str_exn e)).

(** C1 as the specification words it: no call for a marked instance,
    exactly one for every other enumerated instance. *)
Definition ec2_sweep_as_stated (rich : renderer) (aws : provider) (w : world)
  : Prop :=
  forall rs i,
    describe_instances aws (calls w) = inr rs ->
    In i (all_instances rs) ->
    issued (StartInstances [InstanceId i]) w
      (snd (start_ec2_instances rich aws w))
    = (if marked i then 0 else 1)
    /\ issued (StopInstances [InstanceId i]) w
         (snd (stop_ec2_instances rich aws w))
       = (if marked i then 0 else 1).

(** Every call of the pass is the enumeration itself or a call for an
    enumerated instance that is not marked. *)
Definition sweep_safe (mk : list string -> request) (rs : list Reservation)
  (w w' : world) : Prop :=
  forall rq, In rq (new_requests w w') ->
    rq = DescribeInstances
    \/ exists i, In i (all_instances rs) /\ marked i = false
                 /\ rq = mk [InstanceId i].

(** The history after the pass is the one before, the enumeration, and
    [sweep_calls]. *)
Definition sweep_exact (mk : list string -> request) (rs : list Reservation)
  (w w' : world) : Prop :=
  exists tr,
    calls w' = calls w ++ (DescribeInstances, Returned (Reservations rs)) :: tr
    /\ sweep_calls mk rs tr.

(** The handler renders the success line of every unmarked instance. *)
Definition lines_render (rich : renderer) (verb : string)
  (insts : list Instance) : Prop :=
  Forall (fun i => renders rich (sweep_text verb i)) (filter unmarked insts).

(** ** Database instances *)

(** [e.response["Error"]["Code"] == "InvalidDBInstanceState"], for a
    [ClientError]; no other exception is an invalid-state report. *)
Definition invalid_state (e : exn) : bool :=
  match e with
  | ClientError code _ => String.eqb code "InvalidDBInstanceState"
  | _ => false
  end.

(** The loop body shared by [start_rds_db] and [stop_rds_db], up to the
    client method, the verb and the end of the refusal line. *)
Definition rds_body (rich : renderer) (mk : string -> request)
  (oracle : history -> string -> exn + unit) (verb refusal : string)
  (db_instance : DBInstance) : M unit :=
  let db_instance_id := DBInstanceIdentifier db_instance in
  try_except_ClientError
    (invoke (mk db_instance_id) (fun h => oracle h db_instance_id)
       (fun _ => Done) ;;
     logger_info rich (verb ++ " RDS instance " ++ db_instance_id))
    (fun code e =>
       if String.eqb code "InvalidDBInstanceState" then
         logger_error rich ("RDS instance " ++ db_instance_id ++ refusal)
       else raise e).

Definition rds_sweep (rich : renderer) (aws : provider) (mk : string -> request)
  (oracle : history -> string -> exn + unit) (verb refusal : string)
  : M unit :=
  try_except
    (response <- rds_describe_db_instances aws ;;
     if truthy response then
       for_each response (rds_body rich mk oracle verb refusal)
     else raise (Exception "No RDS instances found."))
    (fun e => logger_error rich (str_exn e)).

Definition started_text (verb id : string) : string :=
  verb ++ " RDS instance " ++ id.

Definition refusal_text (refusal id : string) : string :=
  "RDS instance " ++ id ++ refusal.

Definition started_line (verb id : string) : log_record :=
  (INFO, started_text verb id).

Definition refusal_line (refusal id : string) : log_record :=
  (ERROR, refusal_text refusal id).

Definition start_refusal : string :=
  " cannot be started as it is not in a valid state!".

Definition stop_refusal : string :=
  " cannot be stopped as it is not in a valid state".

(** What one pass over the database instances adds to the history and to
    the log, and how it ends: a call that returns and a call refused for
    an invalid state both let the pass go on once their line is written;
    any other exception ends it, and so does a line the handler does not
    render. *)
Inductive rds_run (rich : renderer) (mk : string -> request)
  (verb refusal : string)
  : list DBInstance -> history -> list log_record -> result unit -> Prop :=
| rds_done :
    rds_run rich mk verb refusal [] [] [] (Return tt)
| rds_returned d rest tr ls r :
    renders rich (started_text verb (DBInstanceIdentifier d)) ->
    rds_run rich mk verb refusal rest tr ls r ->
    rds_run rich mk verb refusal (d :: rest)
      (ok (mk (DBInstanceIdentifier d)) :: tr)
      (started_line verb (DBInstanceIdentifier d) :: ls) r
| rds_refused d rest e tr ls r :
    invalid_state e = true ->
    renders rich (refusal_text refusal (DBInstanceIdentifier d)) ->
    rds_run rich mk verb refusal rest tr ls r ->
    rds_run rich mk verb refusal (d :: rest)
      ((mk (DBInstanceIdentifier d), Raised e) :: tr)
      (refusal_line refusal (DBInstanceIdentifier d) :: ls) r
| rds_aborted d rest e :
    invalid_state e = false ->
    rds_run rich mk verb refusal (d :: rest)
      [(mk (DBInstanceIdentifier d), Raised e)] [] (Raise e)
| rds_started_unrendered d rest m :
    markup_error rich
      (format_record (started_text verb (DBInstanceIdentifier d))) = Some m ->
    rds_run rich mk verb refusal (d :: rest)
      [ok (mk (DBInstanceIdentifier d))] [] (Raise (MarkupError m))
| rds_refused_unrendered d rest e m :
    invalid_state e = true ->
    markup_error rich
      (format_record (refusal_text refusal (DBInstanceIdentifier d))) = Some m ->
    rds_run rich mk verb refusal (d :: rest)
      [(mk (DBInstanceIdentifier d), Raised e)] [] (Raise (MarkupError m)).

(** What the outer handler [except Exception as e: self.logger.error(e)]
    makes of the way the guarded block ended: the result of the operation
    and the record it adds. *)
Definition closing (rich : renderer) (r : result unit)
  : result unit * list log_record :=
  match r with
  | Return _ => (Return tt, [])
  | Raise e =>
      match markup_error rich (format_record (str_exn e)) with
      | None => (Return tt, [(ERROR, str_exn e)])
      | Some m => (Raise (MarkupError m), [])
      end
  end.

(** An RDS identifier is made of letters, digits and hyphens; all that
    matters here is that it holds no bracket. *)
Definition plain_identifiers (ds : list DBInstance) : Prop :=
  Forall (fun d => has_bracket (DBInstanceIdentifier d) = false) ds.

(** An invalid-state refusal is followed by its log line, and the pass
    reaches every enumerated instance unless a call raises something else,
    in which case it reaches the instances up to that one and no further. *)
Definition rds_tolerant (mk : string -> request) (refusal : string)
  (ds : list DBInstance) (w w' : world) : Prop :=
  (forall id e,
      In (mk id, Raised e) (new_calls w w') -> invalid_state e = true ->
      In (refusal_line refusal id) (new_logged w w'))
  /\ (new_requests w w'
      = DescribeDBInstances :: map (fun d => mk (DBInstanceIdentifier d)) ds
      \/ exists pre d rest e,
           ds = pre ++ d :: rest /\ invalid_state e = false
           /\ In (mk (DBInstanceIdentifier d), Raised e) (new_calls w w')
           /\ new_requests w w'
              = DescribeDBInstances
                  :: map (fun d => mk (DBInstanceIdentifier d)) (pre ++ [d])).

(** The only exceptions the provider raised during the run are
    invalid-state refusals. *)
Definition only_refusals (w w' : world) : Prop :=
  forall rq e, In (rq, Raised e) (new_calls w w') -> invalid_state e = true.

(** C4 as the specification words it: every refusal has its line in the
    log, and every enumerated instance is attempted. *)
Definition refusals_tolerated (mk : string -> request) (refusal : string)
  (ds : list DBInstance) (w w' : world) : Prop :=
  (forall id e,
      In (mk id, Raised e) (new_calls w w') ->
      In (refusal_line refusal id) (new_logged w w'))
  /\ new_requests w w'
     = DescribeDBInstances :: map (fun d => mk (DBInstanceIdentifier d)) ds.

(** The example of two database instances: the first start returns, the
    second is refused for an invalid state.  Both are attempted, and the
    log holds a success line for the first and a refusal line for the
    second. *)
Definition two_instance_example (rich : renderer) (aws : provider) (w : world)
  (ds : list DBInstance) : Prop :=
  forall a b e,
    ds = [a; b] ->
    let described := (DescribeDBInstances, Returned (DBInstances ds)) in
    let started_a := ok (StartDBInstance (DBInstanceIdentifier a)) in
    start_db_instance aws (calls w ++ [described]) (DBInstanceIdentifier a)
    = inr tt ->
    start_db_instance aws (calls w ++ [described; started_a])
      (DBInstanceIdentifier b)
    = inl e ->
    invalid_state e = true ->
    new_calls w (snd (start_rds_db rich aws w))
    = [described; started_a;
       (StartDBInstance (DBInstanceIdentifier b), Raised e)]
    /\ new_logged w (snd (start_rds_db rich aws w))
       = [started_line "Started" (DBInstanceIdentifier a);
          refusal_line start_refusal (DBInstanceIdentifier b)].

(** ** Scaling groups *)

Definition update_call (desired_count min_count max_count : Z)
  (asg : AutoScalingGroup) : request :=
  UpdateAutoScalingGroup (AutoScalingGroupName asg) min_count max_count
    desired_count.

Definition retrieving_text (e : exn) : string :=
  "Error occurred while retrieving Auto Scaling Groups: " ++ str_exn e.

Definition updating_text (name : string) (e : exn) : string :=
  "Error occurred while updating Auto Scaling Group " ++ name ++ ": "
    ++ str_exn e.

Definition updated_text (desired_count : Z) (asg : AutoScalingGroup) : string :=
  "Capacity updated for Auto Scaling Group " ++ AutoScalingGroupName asg
    ++ ": from " ++ str_int (DesiredCapacity asg) ++ " to "
    ++ str_int desired_count.

Definition retrieving_line (e : exn) : log_record :=
  (ERROR, retrieving_text e).

Definition updating_line (name : string) (e : exn) : log_record :=
  (ERROR, updating_text name e).

Definition updated_line (desired_count : Z) (asg : AutoScalingGroup)
  : log_record :=
  (INFO, updated_text desired_count asg).

(** The loop body of [ec2_asg_desired_capacity]. *)
Definition asg_body (rich : renderer) (aws : provider)
  (desired_count min_count max_count : Z) (asg : AutoScalingGroup) : M unit :=
  let current_capacity := DesiredCapacity asg in
  try_except
    (asg_update_auto_scaling_group aws (AutoScalingGroupName asg)
       min_count max_count desired_count)
    (fun e =>
       logger_error rich ("Error occurred while updating Auto Scaling Group "
                            ++ AutoScalingGroupName asg ++ ": " ++ str_exn e) ;;
       raise e) ;;
  logger_info rich ("Capacity updated for Auto Scaling Group "
                      ++ AutoScalingGroupName asg ++ ": from "
                      ++ str_int current_capacity ++ " to "
                      ++ str_int desired_count).

(** What the loop over the scaling groups adds to the history and to the
    log: one update per group, until one raises or a line is not
    rendered. *)
Inductive asg_run (rich : renderer) (desired_count min_count max_count : Z)
  : list AutoScalingGroup -> history -> list log_record -> result unit -> Prop :=
| asg_done :
    asg_run rich desired_count min_count max_count [] [] [] (Return tt)
| asg_updated g rest tr ls r :
    renders rich (updated_text desired_count g) ->
    asg_run rich desired_count min_count max_count rest tr ls r ->
    asg_run rich desired_count min_count max_count (g :: rest)
      (ok (update_call desired_count min_count max_count g) :: tr)
      (updated_line desired_count g :: ls) r
| asg_updated_unrendered g rest m :
    markup_error rich (format_record (updated_text desired_count g)) = Some m ->
    asg_run rich desired_count min_count max_count (g :: rest)
      [ok (update_call desired_count min_count max_count g)] []
      (Raise (MarkupError m))
| asg_failed g rest e :
    renders rich (updating_text (AutoScalingGroupName g) e) ->
    asg_run rich desired_count min_count max_count (g :: rest)
      [(update_call desired_count min_count max_count g, Raised e)]
      [updating_line (AutoScalingGroupName g) e] (Raise e)
| asg_failed_unrendered g rest e m :
    markup_error rich
      (format_record (updating_text (AutoScalingGroupName g) e)) = Some m ->
    asg_run rich desired_count min_count max_count (g :: rest)
      [(update_call desired_count min_count max_count g, Raised e)] []
      (Raise (MarkupError m)).

(** Once the enumeration has failed and its line is rendered, or an update
    has failed and its line is rendered, the exception is logged and
    raised again; a failed update is the last call of the run. *)
Definition asg_reraises (rich : renderer) (aws : provider) (w : world)
  (run : result unit * world) : Prop :=
  (forall e,
      describe_auto_scaling_groups aws (calls w) = inl e ->
      renders rich (retrieving_text e) ->
      fst run = Raise e
      /\ new_calls w (snd run) = [(DescribeAutoScalingGroups, Raised e)]
      /\ new_logged w (snd run) = [retrieving_line e])
  /\ (forall pre name mn mx d e post,
        new_calls w (snd run)
        = pre ++ (UpdateAutoScalingGroup name mn mx d, Raised e) :: post ->
        post = []
        /\ (renders rich (updating_text name e) ->
            fst run = Raise e
            /\ exists ls, new_logged w (snd run) = ls ++ [updating_line name e])).

(** A call that raised anything but an invalid-state refusal is the last
    call of the run; once its text is rendered, it is the subject of the
    last log record and the operation returns normally. *)
Definition rds_abort (rich : renderer) (mk : string -> request) (w : world)
  (run : result unit * world) : Prop :=
  forall pre id e post,
    new_calls w (snd run) = pre ++ (mk id, Raised e) :: post ->
    invalid_state e = false ->
    post = []
    /\ (renders rich (str_exn e) ->
        fst run = Return tt
        /\ exists ls, new_logged w (snd run) = ls ++ [(ERROR, str_exn e)]).

(** ** The composite operations *)

(** The calls of one compute pass: the enumeration, then only [mk] calls. *)
Definition ec2_phase (mk : list string -> request) (t : history) : Prop :=
  exists o tr,
    t = (DescribeInstances, o) :: tr
    /\ Forall (fun c => exists ids, fst c = mk ids) tr.

(** The calls of one database pass. *)
Definition rds_phase (mk : string -> request) (t : history) : Prop :=
  exists o tr,
    t = (DescribeDBInstances, o) :: tr
    /\ Forall (fun c => exists id, fst c = mk id) tr.

(** The calls of one capacity update: the enumeration, then only updates
    that carry the given desired, minimum and maximum sizes. *)
Definition asg_phase (desired_count min_count max_count : Z) (t : history)
  : Prop :=
  exists o tr,
    t = (DescribeAutoScalingGroups, o) :: tr
    /\ Forall
         (fun c =>
            exists name,
              fst c = UpdateAutoScalingGroup name min_count max_count
                        desired_count)
         tr.


(** C2 as the specification words it: every capacity update that
    [start_all_resources] issues carries desired=0, min=0, max=2. *)
Definition start_all_capacity_as_stated (rich : renderer) (aws : provider)
  (w : world) : Prop :=
  forall name mn mx d,
    In (UpdateAutoScalingGroup name mn mx d)
      (new_requests w (snd (start_all_resources rich aws w))) ->
    d = 0%Z /\ mn = 0%Z /\ mx = 2%Z.

(** C3 as the specification words it: the calls of [stop_all_resources]
    are a compute stop phase, a database stop phase and a capacity phase
    with desired=0, min=0, max=0. *)
Definition stop_all_in_order_as_stated (rich : renderer) (aws : provider)
  (w : world) : Prop :=
  exists t1 t2 t3,
    new_calls w (snd (stop_all_resources rich aws w)) = t1 ++ t2 ++ t3
    /\ ec2_phase StopInstances t1
    /\ rds_phase StopDBInstance t2
    /\ asg_phase 0 0 0 t3.

(** C5 as the specification words it, for one failing call: the exception
    is logged and the operation returns. *)
Definition rds_error_swallowed_as_stated (rich : renderer) (aws : provider)
  (w : world) : Prop :=
  forall pre id e post,
    new_calls w (snd (stop_rds_db rich aws w))
    = pre ++ (StopDBInstance id, Raised e) :: post ->
    invalid_state e = false ->
    fst (stop_rds_db rich aws w) = Return tt
    /\ In (ERROR, str_exn e) (new_logged w (snd (stop_rds_db rich aws w))).

(** C6 as the specification words it, for one failing update: the
    exception is logged and raised again. *)
Definition asg_error_reraised_as_stated (rich : renderer) (aws : provider)
  (desired_count min_count max_count : Z) (w : world) : Prop :=
  let run := ec2_asg_desired_capacity rich aws desired_count min_count
               max_count w in
  forall pre name mn mx d e post,
    new_calls w (snd run)
    = pre ++ (UpdateAutoScalingGroup name mn mx d, Raised e) :: post ->
    fst run = Raise e /\ In (updating_line name e) (new_logged w (snd run)).

(** ** Status queries *)

(** The describe calls are the only ones that change nothing on the
    provider's side. *)
Definition read_only (rq : request) : bool :=
  match rq with
  | DescribeInstances | DescribeDBInstances | DescribeAutoScalingGroups => true
  | _ => false
  end.

(** A computation that keeps the history it finds and adds describe calls
    only. *)
Definition reads_only {A : Type} (m : M A) : Prop :=
  forall w,
    exists t,
      calls (snd (m w)) = calls w ++ t
      /\ Forall (fun c => read_only (fst c) = true) t.

Definition is_name_key (t : Tag) : bool :=
  match Key t with
  | Some k => String.eqb k "Name"
  | None => false
  end.

(** The instance has a tag list and a tag with key ["Name"] in it. *)
Definition has_name_tag (i : Instance) : bool :=
  match Tags i with
  | Some tags => existsb is_name_key tags
  | None => false
  end.

Definition ec2_table : Table :=
  add_column
    (add_column
       (add_column
          (add_column (mkTable "EC2 Instances" [] []) "Instance ID" "left" "cyan")
          "Instance Type" "left" "magenta")
       "Instance Name" "left" "cyan")
    "State" "left" "green".

(** The row [add_row] stores for an instance shown under [name]. *)
Definition ec2_row (i : Instance) (name : option string) : list string :=
  map cell_of
    [Some (InstanceId i); Some (InstanceType i); name; Some (StateName i)].

Definition frame : Type := (option (option string) * Table)%type.

(** The body of the inner loop of [check_ec2_status], on the locals
    [instance_name] and [table]. *)
Definition status_body (f : frame) (instance : Instance) : M frame :=
  let '(instance_name, table) := f in
  tags <- subscript "Tags" (Tags instance) ;;
  let instance_name := scan_name_tags tags instance_name in
  let instance_id := InstanceId instance in
  let instance_type := InstanceType instance in
  let state := StateName instance in
  name <- read_local "instance_name" instance_name ;;
  ret (instance_name,
       add_row table [Some instance_id; Some instance_type; name; Some state]).

(** The same iteration without the monad: it touches no client, no logger
    and no console. *)
Definition status_step (f : frame) (i : Instance) : exn + frame :=
  match Tags i with
  | None => inl (KeyError "Tags")
  | Some tags =>
      match scan_name_tags tags (fst f) with
      | None => inl (UnboundLocalError "instance_name")
      | Some name =>
          inr (Some name,
               add_row (snd f)
                 [Some (InstanceId i); Some (InstanceType i); name;
                  Some (StateName i)])
      end
  end.

Fixpoint status_steps (insts : list Instance) (f : frame) : exn + frame :=
  match insts with
  | [] => inr f
  | i :: rest =>
      match status_step f i with
      | inl e => inl e
      | inr f' => status_steps rest f'
      end
  end.

Definition lift {A : Type} (x : exn + A) : result A :=
  match x with
  | inl e => Raise e
  | inr a => Return a
  end.

(** C10, the three observations on [check_ec2_status]: an exception of the
    enumeration reaches the caller; so does the one raised when the first
    listed instance has no ["Name"] tag; and the row of an instance without
    a ["Name"] tag repeats the name of the row before it. *)
Definition check_ec2_status_partial (aws : provider) (w : world) : Prop :=
  (forall e,
      describe_instances aws (calls w) = inl e ->
      fst (check_ec2_status aws w) = Raise e)
  /\ (forall rs i rest,
        describe_instances aws (calls w) = inr rs ->
        all_instances rs = i :: rest ->
        has_name_tag i = false ->
        fst (check_ec2_status aws w)
        = Raise (match Tags i with
                 | None => KeyError "Tags"
                 | Some _ => UnboundLocalError "instance_name"
                 end))
  /\ (forall rs pre i j post table,
        describe_instances aws (calls w) = inr rs ->
        all_instances rs = pre ++ i :: j :: post ->
        has_name_tag j = false ->
        fst (check_ec2_status aws w) = Return table ->
        exists name,
          nth_error (rows table) (List.length pre) = Some (ec2_row i name)
          /\ nth_error (rows table) (S (List.length pre))
             = Some (ec2_row j name)).

(** ** Empty enumerations *)

(** The run made one call, logged one ERROR record and returned. *)
Definition logs_nothing_found (nothing : string) (rq : request) (r : reply)
  (w : world) (run : result unit * world) : Prop :=
  run = (Return tt, push_log (push_call w rq (Returned r)) ERROR nothing).

(** C9 as the specification words it, for the capacity update: an empty
    enumeration leaves a log record. *)
Definition empty_groups_logged_as_stated (rich : renderer) (aws : provider)
  (w : world) : Prop :=
  describe_auto_scaling_groups aws (calls w) = inr [] ->
  forall desired_count min_count max_count,
    new_logged w
      (snd (ec2_asg_desired_capacity rich aws desired_count min_count
              max_count w))
    <> [].

(** ** The menu *)

Definition menu_choices : list string :=
  ["0"; "1"; "2"; "3"; "4"; "5"; "6"; "7"; "8"].

(** The operation [run_choice] dispatches to. *)
Definition operation (rich : renderer) (aws : provider) (choice : string)
  : option (M unit) :=
  if String.eqb choice "0" then Some (check_status rich aws)
  else if String.eqb choice "1" then Some (stop_all_resources rich aws)
  else if String.eqb choice "2" then Some (start_all_resources rich aws)
  else if String.eqb choice "3" then Some (start_ec2_instances rich aws)
  else if String.eqb choice "4" then Some (stop_ec2_instances rich aws)
  else if String.eqb choice "5" then Some (start_rds_db rich aws)
  else if String.eqb choice "6" then Some (stop_rds_db rich aws)
  else if String.eqb choice "7" then
    Some (ec2_asg_desired_capacity rich aws 1 0 1)
  else if String.eqb choice "8" then
    Some (ec2_asg_desired_capacity rich aws 0 0 0)
  else None.

(** The world once the progress display is up and its task added. *)
Definition entering (description : string) (w : world) : world :=
  push_console (push_console w ProgressEnter) (ProgressAddTask description).

(** The world in which the dispatched operation starts. *)
Definition at_dispatch (choice : string) (w : world) : world :=
  if String.eqb choice "0" then
    entering "[bold cyan]Checking Resource(EC2, RDS, ASG) status"
      (push_console (push_console w ClearScreen)
         (PrintPanel "[maroon]Checking status of AWS resources![/]"))
  else if String.eqb choice "1" then
    entering "[bold cyan]Stopping all resources" w
  else if String.eqb choice "2" then
    entering "[bold cyan]Starting all resources" w
  else if String.eqb choice "3" then
    entering "[bold cyan]Starting EC2 Instances" w
  else if String.eqb choice "4" then
    entering "[bold cyan]Stopping EC2 Instances" w
  else if String.eqb choice "5" then
    entering "[bold cyan]Starting RDS Instance" w
  else if String.eqb choice "6" then
    entering "[bold cyan]Stopping RDS Instance" w
  else if String.eqb choice "7" then
    entering "[bold cyan]Scaling Auto Scaling Group up" w
  else if String.eqb choice "8" then
    entering "[bold cyan]Scaling Auto Scaling Group down" w
  else w.




(** * Vocabulary of the further properties *)

(** The oracle accepts every call. *)
Definition accepts {A : Type} (oracle : history -> A -> exn + unit) : Prop :=
  forall h a, oracle h a = inr tt.

(** The pass went through every instance of [rs]. *)
Definition sweep_completes (mk : list string -> request) (verb : string)
  (rs : list Reservation) (w : world) (run : result unit * world) : Prop :=
  let todo := filter unmarked (all_instances rs) in
  run
  = (Return tt,
     extend w
       ((DescribeInstances, Returned (Reservations rs))
          :: map (fun i => ok (mk [InstanceId i])) todo)
       (map (sweep_line verb) todo)).

(** The pass went through [pre] and ended on the lookup error of [i]. *)
Definition sweep_stops_at (mk : list string -> request) (verb : string)
  (rs : list Reservation) (pre : list Instance) (i : Instance) (w : world)
  (run : result unit * world) : Prop :=
  let todo := filter unmarked pre in
  run
  = (Return tt,
     extend w
       ((DescribeInstances, Returned (Reservations rs))
          :: map (fun i => ok (mk [InstanceId i])) todo)
       (map (sweep_line verb) todo ++ [(ERROR, str_exn (lookup_error i))])).

(** The database pass went through every instance of [ds]. *)
Definition rds_completes (mk : string -> request) (verb : string)
  (ds : list DBInstance) (w : world) (run : result unit * world) : Prop :=
  run
  = (Return tt,
     extend w
       ((DescribeDBInstances, Returned (DBInstances ds))
          :: map (fun d => ok (mk (DBInstanceIdentifier d))) ds)
       (map (fun d => started_line verb (DBInstanceIdentifier d)) ds)).

(** The enumeration raised [e]: one call, one ERROR record, a normal
    return. *)
Definition enumeration_error_logged (rq : request) (e : exn) (w : world)
  (run : result unit * world) : Prop :=
  run = (Return tt, push_log (push_call w rq (Raised e)) ERROR (str_exn e)).

(** The capacity update went through every group of [gs]. *)
Definition asg_completes (desired_count min_count max_count : Z)
  (gs : list AutoScalingGroup) (w : world) (run : result unit * world) : Prop :=
  run
  = (Return tt,
     extend w
       ((DescribeAutoScalingGroups, Returned (AutoScalingGroups gs))
          :: map (fun g => ok (update_call desired_count min_count max_count g))
               gs)
       (map (updated_line desired_count) gs)).

(** The updates of a run are those of the first [k] enumerated groups, in
    enumeration order, and of all of them when the run returns. *)
Definition asg_updates_prefix (desired_count min_count max_count : Z)
  (gs : list AutoScalingGroup) (w : world) (run : result unit * world) : Prop :=
  exists k,
    k <= List.length gs
    /\ new_requests w (snd run)
       = DescribeAutoScalingGroups
           :: map (update_call desired_count min_count max_count) (firstn k gs)
    /\ (fst run = Return tt -> k = List.length gs).

(** ** Status tables *)

Definition rds_row (d : DBInstance) : list string :=
  [DBInstanceIdentifier d; DBInstanceClass d; DBInstanceStatus d].

Definition rds_table (ds : list DBInstance) : Table :=
  mkTable "RDS Instances"
    [mkColumn "DB Instance ID" "left" "cyan";
     mkColumn "DB Instance Class" "left" "magenta";
     mkColumn "Status" "left" "green"]
    (map rds_row ds).

Definition asg_row (g : AutoScalingGroup) : list string :=
  [AutoScalingGroupName g; str_int (MinSize g); str_int (MaxSize g);
   str_int (DesiredCapacity g)].

Definition asg_table (gs : list AutoScalingGroup) : Table :=
  mkTable "Auto Scaling Groups"
    [mkColumn "ASG Name" "left" "cyan";
     mkColumn "Min Capacity" "left" "magenta";
     mkColumn "Max Capacity" "left" "green";
     mkColumn "Desired Capacity" "left" "yellow"]
    (map asg_row gs).

(** The last tag of the list whose key is ["Name"], if there is one. *)
Definition last_name_tag (tags : list Tag) : option Tag :=
  hd_error (rev (filter is_name_key tags)).

(** The name a named instance shows in the table: the value of its last
    ["Name"] tag, or [None] when that tag has no value. *)
Definition given_name (i : Instance) : option string :=
  match Tags i with
  | Some tags =>
      match last_name_tag tags with
      | Some t => Value t
      | None => None
      end
  | None => None
  end.

Definition ec2_named_table (rs : list Reservation) : Table :=
  mkTable "EC2 Instances"
    [mkColumn "Instance ID" "left" "cyan";
     mkColumn "Instance Type" "left" "magenta";
     mkColumn "Instance Name" "left" "cyan";
     mkColumn "State" "left" "green"]
    (map (fun i => ec2_row i (given_name i)) (all_instances rs)).

(** [print(table)] in a world, as a result and a world. *)
Definition printed (rich : renderer) (t : Table) (w : world)
  : result unit * world :=
  match table_error rich t with
  | None => (Return tt, push_console w (PrintTable t))
  | Some m => (Raise (MarkupError m), w)
  end.

(** ** The menu, further *)

Definition press_enter : console_event :=
  ConsoleInput
    (String "010"%char
       "[bold magenta]Press Enter to run another task...[/bold magenta]").

(** What [run_choice] does once the dispatched operation has ended: the
    progress display is left in both cases, the prompt is shown after a
    normal return only, and an exception goes on to the caller. *)
Definition after_operation (run : result unit * world) : result unit * world :=
  match run with
  | (Return _, w1) =>
      (Return tt, push_console (push_console w1 ProgressExit) press_enter)
  | (Raise e, w1) => (Raise e, push_console w1 ProgressExit)
  end.

(** The calls a run of [m] adds are one capacity phase with the given
    sizes. *)
Definition only_capacity_phase (desired_count min_count max_count : Z)
  (w : world) (run : result unit * world) : Prop :=
  exists t,
    calls (snd run) = calls w ++ t
    /\ asg_phase desired_count min_count max_count t.

(** The run made one call more than it wrote log records: the
    enumeration, and then one record for every call. *)
Definition one_record_per_call (w : world) (run : result unit * world) : Prop :=
  List.length (new_calls w (snd run))
  = S (List.length (new_logged w (snd run))).

(** ** A sample renderer *)

(** The text holds ["[/"]. *)
Fixpoint has_closing_tag (text : string) : bool :=
  match text with
  | EmptyString => false
  | String c rest =>
      (Ascii.eqb c "["%char
       && match rest with
          | String c' _ => Ascii.eqb c' "/"%char
          | EmptyString => false
          end)
      || has_closing_tag rest
  end.

Definition unmatched (text : string) : string :=
  "closing tag in '" ++ text ++ "' doesn't match any open tag".

(** A stand-in for rich's parser on the texts of the samples below, none of
    which holds an opening tag: it rejects a text that holds a closing
    tag, which has then nothing to close, and quotes it in the error, so
    that the error text is rejected in turn. *)
Definition tag_checker : renderer :=
  mkRenderer
    (fun text => if has_closing_tag text then Some (unmatched text) else None)
    (fun t =>
       match find has_closing_tag (table_texts t) with
       | Some text => Some (unmatched text)
       | None => None
       end).

(** ** Sample providers *)

Definition answer (o : option exn) : exn + unit :=
  match o with
  | Some e => inl e
  | None => inr tt
  end.

(** A provider whose enumerations are fixed and whose other calls fail or
    not according to the resource they name. *)
Definition static_provider (rs : list Reservation) (ds : list DBInstance)
  (gs : list AutoScalingGroup) (ec2_fault : list string -> option exn)
  (rds_fault asg_fault : string -> option exn) : provider :=
  mkProvider
    (fun _ => inr rs)
    (fun _ ids => answer (ec2_fault ids))
    (fun _ ids => answer (ec2_fault ids))
    (fun _ => inr ds)
    (fun _ id => answer (rds_fault id))
    (fun _ id => answer (rds_fault id))
    (fun _ => inr gs)
    (fun _ name _ _ _ => answer (asg_fault name)).

Definition no_fault {A : Type} (_ : A) : option exn := None.

Definition web1 : Instance :=
  mkInstance "i-0a1" "t3.micro" "stopped" (Some [mkTag (Some "Name") (Some "web1")]).

Definition web2 : Instance :=
  mkInstance "i-0b2" "t3.micro" "stopped" (Some [mkTag (Some "Name") (Some "web2")]).

Definition ecs_node : Instance :=
  mkInstance "i-0c3" "t3.large" "running"
    (Some [mkTag (Some "AmazonECSManaged") (Some "true");
           mkTag (Some "Name") (Some "ecs-node")]).

Definition fleet : list Reservation :=
  [mkReservation [web1; ecs_node]; mkReservation [web2]].

(** [web1] has been terminated: the provider refuses to start or stop it. *)
Definition web1_terminated (ids : list string) : option exn :=
  match ids with
  | [id] =>
      if String.eqb id "i-0a1" then
        Some (ClientError "IncorrectInstanceState"
                "An error occurred (IncorrectInstanceState)")
      else None
  | _ => None
  end.

Definition orders_db : DBInstance :=
  mkDBInstance "orders" "db.t3.medium" "stopped".

Definition reports_db : DBInstance :=
  mkDBInstance "reports" "db.t3.medium" "available".

Definition archive_db : DBInstance :=
  mkDBInstance "archive" "db.t3.small" "stopped".

Definition web_asg : AutoScalingGroup :=
  mkAutoScalingGroup "web-asg" 0 2 1.

Definition batch_asg : AutoScalingGroup :=
  mkAutoScalingGroup "batch-asg" 0 4 2.

(** A site where every call is accepted. *)
Definition site_provider : provider :=
  static_provider fleet [orders_db; reports_db] [web_asg; batch_asg]
    no_fault no_fault no_fault.

(** A site without scaling groups. *)
Definition no_groups_provider : provider :=
  static_provider fleet [orders_db; reports_db] [] no_fault no_fault no_fault.

Definition endpoint_down : exn :=
  BotoCoreError "Could not connect to the endpoint URL".

(** The [site_provider], with the Auto Scaling endpoint unreachable. *)
Definition asg_outage_provider : provider :=
  mkProvider
    (describe_instances site_provider)
    (start_instances site_provider)
    (stop_instances site_provider)
    (describe_db_instances site_provider)
    (start_db_instance site_provider)
    (stop_db_instance site_provider)
    (fun _ => inl endpoint_down)
    (fun _ _ _ _ _ => inl endpoint_down).

Definition already_running : exn :=
  ClientError "InvalidDBInstanceState"
    "An error occurred (InvalidDBInstanceState) when calling the StartDBInstance operation".

Definition access_denied : exn :=
  ClientError "AccessDenied"
    "An error occurred (AccessDenied) when calling the StartDBInstance operation".

(** [orders] starts, [reports] is refused for its state. *)
Definition reports_refused (id : string) : option exn :=
  if String.eqb id "reports" then Some already_running else None.

Definition second_refused_provider : provider :=
  static_provider fleet [orders_db; reports_db] [web_asg]
    no_fault reports_refused no_fault.

(** [orders] is refused for its state, [reports] for a missing permission. *)
Definition orders_refused_reports_denied (id : string) : option exn :=
  if String.eqb id "orders" then Some already_running
  else if String.eqb id "reports" then Some access_denied
  else None.

Definition mixed_faults_provider : provider :=
  static_provider fleet [orders_db; reports_db; archive_db] [web_asg]
    no_fault orders_refused_reports_denied no_fault.

Definition validation_error : exn :=
  ClientError "ValidationError"
    "An error occurred (ValidationError) when calling the UpdateAutoScalingGroup operation".

(** The update of [web-asg] is rejected. *)
Definition web_asg_rejected (name : string) : option exn :=
  if String.eqb name "web-asg" then Some validation_error else None.

Definition update_rejected_provider : provider :=
  static_provider fleet [orders_db] [web_asg; batch_asg]
    no_fault no_fault web_asg_rejected.

(** An instance without a ["Name"] tag, listed first or after [web1]. *)
Definition unnamed : Instance :=
  mkInstance "i-0d4" "t3.nano" "running" (Some [mkTag (Some "env") (Some "dev")]).

Definition unnamed_first_provider : provider :=
  static_provider [mkReservation [unnamed; web1]] [] []
    no_fault no_fault no_fault.

Definition unnamed_second_provider : provider :=
  static_provider [mkReservation [web1; unnamed]] [] []
    no_fault no_fault no_fault.

(** The EC2 endpoint is unreachable. *)
Definition ec2_outage_provider : provider :=
  mkProvider
    (fun _ => inl endpoint_down)
    (fun _ _ => inl endpoint_down)
    (fun _ _ => inl endpoint_down)
    (describe_db_instances site_provider)
    (start_db_instance site_provider)
    (stop_db_instance site_provider)
    (describe_auto_scaling_groups site_provider)
    (update_auto_scaling_group site_provider).

(** A site with nothing in it. *)
Definition empty_provider : provider :=
  static_provider [] [] [] no_fault no_fault no_fault.

(** An instance for which boto3 returns no ["Tags"] key, between two
    named ones. *)
Definition bare : Instance := mkInstance "i-0e5" "t3.nano" "running" None.

Definition bare_fleet : list Reservation :=
  [mkReservation [web1; bare]; mkReservation [web2]].

Definition bare_fleet_provider : provider :=
  static_provider bare_fleet [] [] no_fault no_fault no_fault.

(** The RDS endpoint is unreachable. *)
Definition rds_outage_provider : provider :=
  mkProvider
    (describe_instances site_provider)
    (start_instances site_provider)
    (stop_instances site_provider)
    (fun _ => inl endpoint_down)
    (fun _ _ => inl endpoint_down)
    (fun _ _ => inl endpoint_down)
    (describe_auto_scaling_groups site_provider)
    (update_auto_scaling_group site_provider).

Definition fleet_provider : provider :=
  static_provider fleet [] [] no_fault no_fault no_fault.

Definition fleet_provider_web1_terminated : provider :=
  static_provider fleet [] [] web1_terminated no_fault no_fault.

(** An instance named with a closing tag, which EC2 accepts as a tag
    value. *)
Definition prod_web : Instance :=
  mkInstance "i-0f6" "t3.micro" "running"
    (Some [mkTag (Some "Name") (Some "[/prod]")]).

Definition prod_fleet : list Reservation :=
  [mkReservation [prod_web; web2]].

Definition prod_fleet_provider : provider :=
  static_provider prod_fleet [orders_db; reports_db] [web_asg]
    no_fault no_fault no_fault.

(** A refusal whose text quotes an option written as a closing tag. *)
Definition option_rejected : exn :=
  ClientError "InvalidParameterCombination"
    "An error occurred (InvalidParameterCombination): [/force] is not a valid option".

Definition orders_option_rejected (id : string) : option exn :=
  if String.eqb id "orders" then Some option_rejected else None.

Definition option_rejected_provider : provider :=
  static_provider fleet [orders_db; reports_db] [web_asg]
    no_fault orders_option_rejected no_fault.

(** A scaling group whose name holds a closing tag, and whose update is
    rejected. *)
Definition blue_asg : AutoScalingGroup :=
  mkAutoScalingGroup "web[/blue]" 0 2 1.

Definition blue_asg_rejected (name : string) : option exn :=
  if String.eqb name "web[/blue]" then Some validation_error else None.

Definition blue_rejected_provider : provider :=
  static_provider fleet [orders_db] [blue_asg; batch_asg]
    no_fault no_fault blue_asg_rejected.

(** * Proofs *)

(** ** The monad and the loops *)

Lemma new_calls_app (w w' : world) (tr : history) :
  calls w' = calls w ++ tr -> new_calls w w' = tr.
Proof.
  intros E. unfold new_calls. rewrite E, skipn_app, skipn_all, Nat.sub_diag.
  reflexivity.
Qed.

Lemma new_logged_app (w w' : world) (ls : list log_record) :
  logged w' = logged w ++ ls -> new_logged w w' = ls.
Proof.
  intros E. unfold new_logged. rewrite E, skipn_app, skipn_all, Nat.sub_diag.
  reflexivity.
Qed.

Lemma for_each_app {A : Type} (xs ys : list A) (body : A -> M unit) (w : world) :
  for_each (xs ++ ys) body w = (for_each xs body ;; for_each ys body) w.
Proof.
  revert w. induction xs as [|x xs IH]; intros w; simpl.
  - reflexivity.
  - unfold bind. destruct (body x w) as [[[]|e] w1]; [|reflexivity].
    rewrite IH. unfold bind. reflexivity.
Qed.

Lemma for_each_flat_map {A B : Type} (f : A -> list B) (xs : list A)
  (body : B -> M unit) (w : world) :
  for_each xs (fun x => for_each (f x) body) w = for_each (flat_map f xs) body w.
Proof.
  revert w. induction xs as [|x xs IH]; intros w; simpl.
  - reflexivity.
  - rewrite for_each_app. unfold bind.
    destruct (for_each (f x) body w) as [[[]|e] w1]; [apply IH|reflexivity].
Qed.

Lemma invoke_bind {A B : Type} (rq : request) (oracle : history -> exn + A)
  (wrap : A -> reply) (k : A -> M B) (w : world) :
  (x <- invoke rq oracle wrap ;; k x) w =
  match oracle (calls w) with
  | inr a => k a (push_call w rq (Returned (wrap a)))
  | inl e => (Raise e, push_call w rq (Raised e))
  end.
Proof.
  unfold bind, invoke. destruct (oracle (calls w)); reflexivity.
Qed.

Lemma calls_push_call (w : world) (rq : request) (o : outcome) :
  calls (push_call w rq o) = calls w ++ [(rq, o)].
Proof. reflexivity. Qed.

Lemma calls_push_log (w : world) (l : level) (msg : string) :
  calls (push_log w l msg) = calls w.
Proof. reflexivity. Qed.

Lemma logged_push_call (w : world) (rq : request) (o : outcome) :
  logged (push_call w rq o) = logged w.
Proof. reflexivity. Qed.

Lemma logged_push_log (w : world) (l : level) (msg : string) :
  logged (push_log w l msg) = logged w ++ [(l, msg)].
Proof. reflexivity. Qed.

Create Rewrite HintDb world.

#[local] Hint Rewrite calls_push_call calls_push_log logged_push_call
  logged_push_log : world.

Lemma app_cons_assoc {A : Type} (xs : list A) (x : A) (ys : list A) :
  (xs ++ [x]) ++ ys = xs ++ x :: ys.
Proof. rewrite <- app_assoc. reflexivity. Qed.

(** *** The log handler *)

Lemma logger_log_eq (rich : renderer) (l : level) (msg : string) (w : world) :
  logger_log rich l msg w =
  match markup_error rich (format_record msg) with
  | None => (Return tt, push_log w l msg)
  | Some m => (Raise (MarkupError m), w)
  end.
Proof. reflexivity. Qed.

Lemma has_bracket_app (a b : string) :
  has_bracket (a ++ b) = has_bracket a || has_bracket b.
Proof.
  induction a as [|c a IH]; cbn [String.append has_bracket].
  - reflexivity.
  - rewrite IH. apply orb_assoc.
Qed.

(** A text without a bracket is rendered, whatever the parser. *)
Lemma plain_renders (rich : renderer) (msg : string) :
  has_bracket msg = false -> renders rich msg.
Proof.
  intros H. unfold renders, markup_error, format_record.
  rewrite !has_bracket_app, H. reflexivity.
Qed.


(** [try: m  except Exception as e: self.logger.error(e)], field by field. *)
Lemma try_logged (rich : renderer) (m : M unit) (w : world) :
  let run := try_except m (fun e => logger_error rich (str_exn e)) w in
  fst run = fst (closing rich (fst (m w)))
  /\ calls (snd run) = calls (snd (m w))
  /\ logged (snd run) = logged (snd (m w)) ++ snd (closing rich (fst (m w)))
  /\ console (snd run) = console (snd (m w)).
Proof.
  cbn zeta. unfold try_except, logger_error, closing.
  destruct (m w) as [[[]|e] w1]; cbn [fst snd].
  - rewrite app_nil_r. auto.
  - rewrite logger_log_eq.
    destruct (markup_error rich (format_record (str_exn e))) as [msg|];
      cbn [fst snd]; autorewrite with world; rewrite ?app_nil_r; auto.
Qed.

(** ** Compute instances: the sweep *)

Section Sweep.

Variable rich : renderer.
Variable mk : list string -> request.
Variable oracle : history -> list string -> exn + unit.
Variable verb : string.

(** One iteration, case by case. *)
Lemma sweep_body_eq (i : Instance) (w : world) :
  sweep_body rich mk oracle verb i w =
  match Tags i with
  | None => (Raise (KeyError "Tags"), w)
  | Some [] => (Raise IndexError, w)
  | Some (t :: _) =>
      if is_true_literal (Value t) then (Return tt, w)
      else
        match oracle (calls w) [InstanceId i] with
        | inl e => (Raise e, push_call w (mk [InstanceId i]) (Raised e))
        | inr _ =>
            match markup_error rich (format_record (sweep_text verb i)) with
            | None =>
                (Return tt,
                 push_log (push_call w (mk [InstanceId i]) (Returned Done))
                   INFO (sweep_text verb i))
            | Some m =>
                (Raise (MarkupError m),
                 push_call w (mk [InstanceId i]) (Returned Done))
            end
        end
  end.
Proof.
  unfold sweep_body, subscript, first_item, bind, ret, raise, sweep_text,
    first_tag_value.
  destruct (Tags i) as [[|t ts]|]; try reflexivity.
  destruct (is_true_literal (Value t)); [reflexivity|].
  unfold invoke, logger_info.
  destruct (oracle (calls w) [InstanceId i]) as [e|[]]; [reflexivity|].
  rewrite logger_log_eq.
  match goal with
  | |- context [markup_error rich ?t] => destruct (markup_error rich t)
  end; reflexivity.
Qed.

Lemma sweep_loop (insts : list Instance) (w : world) :
  exists tr,
    calls (snd (for_each insts (sweep_body rich mk oracle verb) w))
    = calls w ++ tr
    /\ sweep_run rich mk verb insts tr
         (fst (for_each insts (sweep_body rich mk oracle verb) w)).
Proof.
  revert w. induction insts as [|i insts IH]; intros w.
  - exists []. simpl. rewrite app_nil_r. split; [reflexivity|constructor].
  - cbn [for_each]. unfold bind. rewrite sweep_body_eq.
    destruct (Tags i) as [[|t ts]|] eqn:ET; cbn [fst snd].
    + exists []. rewrite app_nil_r. split; [reflexivity|].
      apply sweep_lookup_raises. unfold tagged. now rewrite ET.
    + assert (Htag : tagged i = true) by (unfold tagged; now rewrite ET).
      destruct (is_true_literal (Value t)) eqn:EM.
      * destruct (IH w) as (tr & Hc & Hr). exists tr. split; [exact Hc|].
        apply sweep_skip; [|exact Hr]. unfold marked. now rewrite ET.
      * assert (Hm : marked i = false) by (unfold marked; now rewrite ET).
        destruct (oracle (calls w) [InstanceId i]) as [e|[]] eqn:EO;
          cbn [fst snd].
        -- exists [(mk [InstanceId i], Raised e)]. split; [reflexivity|].
           apply sweep_call_raises; assumption.
        -- destruct (markup_error rich (format_record (sweep_text verb i)))
             as [m|] eqn:ER; cbn [fst snd].
           ++ exists [ok (mk [InstanceId i])]. split; [reflexivity|].
              apply sweep_line_raises; try assumption.
              unfold renders. congruence.
           ++ match goal with
              | |- context [for_each insts _ ?w1] =>
                  destruct (IH w1) as (tr & Hc & Hr)
              end.
              exists (ok (mk [InstanceId i]) :: tr). split.
              ** rewrite Hc. autorewrite with world. apply app_cons_assoc.
              ** apply sweep_call; assumption.
    + exists []. rewrite app_nil_r. split; [reflexivity|].
      apply sweep_lookup_raises. unfold tagged. now rewrite ET.
Qed.

End Sweep.

Lemma start_ec2_instances_sweep (rich : renderer) (aws : provider) :
  start_ec2_instances rich aws
  = ec2_sweep rich aws StartInstances (start_instances aws)
      "Started" "No EC2 Instance found!".
Proof. reflexivity. Qed.

Lemma stop_ec2_instances_sweep (rich : renderer) (aws : provider) :
  stop_ec2_instances rich aws
  = ec2_sweep rich aws StopInstances (stop_instances aws)
      "Stopped" "No EC2 instances found!".
Proof. reflexivity. Qed.

(** The guarded block of the compute pass. *)
Lemma ec2_guarded_eq (rich : renderer) (aws : provider)
  (mk : list string -> request)
  (oracle : history -> list string -> exn + unit) (verb nothing : string)
  (w : world) :
  (response <- ec2_describe_instances aws ;;
   if truthy response then
     for_each response (fun reservation =>
       for_each (Instances reservation) (sweep_body rich mk oracle verb))
   else raise (Exception nothing)) w
  = match describe_instances aws (calls w) with
    | inl e => (Raise e, push_call w DescribeInstances (Raised e))
    | inr rs =>
        let w1 := push_call w DescribeInstances (Returned (Reservations rs)) in
        if truthy rs then
          for_each (all_instances rs) (sweep_body rich mk oracle verb) w1
        else (Raise (Exception nothing), w1)
    end.
Proof.
  unfold ec2_describe_instances. rewrite invoke_bind.
  destruct (describe_instances aws (calls w)) as [e|rs]; [reflexivity|].
  cbn zeta. destruct (truthy rs); [|reflexivity].
  apply for_each_flat_map.
Qed.

Lemma ec2_sweep_run (rich : renderer) (aws : provider)
  (mk : list string -> request)
  (oracle : history -> list string -> exn + unit) (verb nothing : string)
  (w : world) (rs : list Reservation) :
  describe_instances aws (calls w) = inr rs ->
  exists tr r,
    calls (snd (ec2_sweep rich aws mk oracle verb nothing w))
    = calls w ++ (DescribeInstances, Returned (Reservations rs)) :: tr
    /\ sweep_run rich mk verb (all_instances rs) tr r.
Proof.
  intros Hd. unfold ec2_sweep.
  match goal with
  | |- context [try_except ?m ?h w] =>
      destruct (try_logged rich m w) as (_ & Hc & _)
  end.
  cbn zeta in Hc. rewrite Hc, ec2_guarded_eq, Hd. cbn zeta.
  destruct rs as [|r0 rs']; cbn [truthy].
  - exists [], (Return tt). split; [reflexivity|constructor].
  - match goal with
    | |- context [for_each ?l ?b ?w1] =>
        destruct (sweep_loop rich mk oracle verb l w1) as (tr & Hc1 & Hr)
    end.
    autorewrite with world in Hc1.
    eexists tr, _. rewrite Hc1, app_cons_assoc. split; [reflexivity|exact Hr].
Qed.


Lemma sweep_run_safe (rich : renderer) (mk : list string -> request)
  (verb : string) (insts : list Instance) (tr : history) (r : result unit) :
  sweep_run rich mk verb insts tr r ->
  forall rq o, In (rq, o) tr ->
    exists i, In i insts /\ marked i = false /\ rq = mk [InstanceId i].
Proof.
  induction 1 as [|i rest tr r Hm _ IH|i rest tr r Ht Hm _ IH|i rest e Ht Hm
                 |i rest e Ht Hm Hl|i rest e Ht];
    intros rq o Hin.
  - destruct Hin.
  - destruct (IH _ _ Hin) as (j & Hj & Hmj & Hrq).
    exists j. auto using in_cons.
  - destruct Hin as [Heq|Hin].
    + inversion Heq; subst. exists i. auto using in_eq.
    + destruct (IH _ _ Hin) as (j & Hj & Hmj & Hrq).
      exists j. auto using in_cons.
  - destruct Hin as [Heq|[]]. inversion Heq; subst. exists i. auto using in_eq.
  - destruct Hin as [Heq|[]]. inversion Heq; subst. exists i. auto using in_eq.
  - destruct Hin.
Qed.

Lemma sweep_run_exact (rich : renderer) (mk : list string -> request)
  (verb : string) (insts : list Instance) (tr : history) (r : result unit) :
  sweep_run rich mk verb insts tr r ->
  Forall (fun i => tagged i = true) insts ->
  lines_render rich verb insts ->
  (r = Return tt
   /\ tr = map (fun i => ok (mk [InstanceId i])) (filter unmarked insts))
  \/ exists pre i rest e,
       r = Raise e /\ filter unmarked insts = pre ++ i :: rest
       /\ tr = map (fun i => ok (mk [InstanceId i])) pre
               ++ [(mk [InstanceId i], Raised e)].
Proof.
  unfold lines_render.
  induction 1 as [|i rest tr r Hm _ IH|i rest tr r Ht Hm _ IH|i rest e Ht Hm
                 |i rest e Ht Hm Hl|i rest e Ht];
    intros Hall Hlines.
  - left. auto.
  - inversion Hall; subst. cbn [filter] in *.
    replace (unmarked i) with false in * by (unfold unmarked; now rewrite Hm).
    auto.
  - inversion Hall; subst. cbn [filter] in *.
    replace (unmarked i) with true in * by (unfold unmarked; now rewrite Hm).
    inversion Hlines; subst.
    destruct (IH H2 H4) as [[Hr Htr]|(pre & j & post & e & Hr & Htodo & Htr)].
    + left. subst. auto.
    + right. exists (i :: pre), j, post, e. rewrite Htodo, Htr. auto.
  - right. exists [], i, (filter unmarked rest), e. cbn [filter].
    replace (unmarked i) with true by (unfold unmarked; now rewrite Hm).
    auto.
  - exfalso. cbn [filter] in Hlines.
    replace (unmarked i) with true in * by (unfold unmarked; now rewrite Hm).
    inversion Hlines; subst. contradiction.
  - inversion Hall; subst. congruence.
Qed.

(** C1, as amended.  Whatever the provider does, a compute instance whose
    first tag value is the literal ["true"] is never started or stopped:
    every call [start_ec2_instances] (resp. [stop_ec2_instances]) issues
    after the enumeration is for an enumerated instance that is not marked.
    When every enumerated instance carries at least one tag and the log
    handler renders the success line of every unmarked instance, the calls
    are exactly one per unmarked instance, in enumeration order, up to and
    including the first call that raises: all of them when none raises. *)
Theorem ec2_sweep_skips_marked (rich : renderer) (aws : provider) (w : world)
  (rs : list Reservation) :
  describe_instances aws (calls w) = inr rs ->
  (sweep_safe StartInstances rs w (snd (start_ec2_instances rich aws w))
   /\ sweep_safe StopInstances rs w (snd (stop_ec2_instances rich aws w)))
  /\ (Forall (fun i => tagged i = true) (all_instances rs) ->
      (lines_render rich "Started" (all_instances rs) ->
       sweep_exact StartInstances rs w (snd (start_ec2_instances rich aws w)))
      /\ (lines_render rich "Stopped" (all_instances rs) ->
          sweep_exact StopInstances rs w
            (snd (stop_ec2_instances rich aws w)))).
Proof.
  intros Hd.
  rewrite start_ec2_instances_sweep, stop_ec2_instances_sweep.
  destruct (ec2_sweep_run rich aws StartInstances (start_instances aws)
              "Started" "No EC2 Instance found!" w rs Hd)
    as (tr1 & r1 & Hc1 & Hr1).
  destruct (ec2_sweep_run rich aws StopInstances (stop_instances aws)
              "Stopped" "No EC2 instances found!" w rs Hd)
    as (tr2 & r2 & Hc2 & Hr2).
  assert (Hsafe : forall mk verb w' tr r,
             calls w' = calls w
                          ++ (DescribeInstances, Returned (Reservations rs)) :: tr ->
             sweep_run rich mk verb (all_instances rs) tr r ->
             sweep_safe mk rs w w').
  { intros mk verb w' tr r Hc Hr rq Hin. unfold new_requests in Hin.
    rewrite (new_calls_app w w' _ Hc) in Hin. cbn [map fst] in Hin.
    destruct Hin as [Heq|Hin]; [left; auto|right].
    apply in_map_iff in Hin. destruct Hin as ([rq' o] & Heq & Hin).
    cbn [fst] in Heq. subst rq'. eapply sweep_run_safe; eauto. }
  assert (Hexact : forall mk verb w' tr r,
             calls w' = calls w
                          ++ (DescribeInstances, Returned (Reservations rs)) :: tr ->
             sweep_run rich mk verb (all_instances rs) tr r ->
             Forall (fun i => tagged i = true) (all_instances rs) ->
             lines_render rich verb (all_instances rs) ->
             sweep_exact mk rs w w').
  { intros mk verb w' tr r Hc Hr Hall Hlines. exists tr. split; [exact Hc|].
    unfold sweep_calls.
    destruct (sweep_run_exact rich mk verb _ _ _ Hr Hall Hlines)
      as [[_ Htr]|(pre & i & rest & e & _ & Htodo & Htr)].
    - left. exact Htr.
    - right. exists pre, i, rest, e. auto. }
  split; [split|intros Hall; split; intros Hlines]; eauto.
Qed.

(** ** Database instances: the sweep *)

Lemma start_rds_db_sweep (rich : renderer) (aws : provider) :
  start_rds_db rich aws
  = rds_sweep rich aws StartDBInstance (start_db_instance aws) "Started"
      start_refusal.
Proof. reflexivity. Qed.

Lemma stop_rds_db_sweep (rich : renderer) (aws : provider) :
  stop_rds_db rich aws
  = rds_sweep rich aws StopDBInstance (stop_db_instance aws) "Stopped"
      stop_refusal.
Proof. reflexivity. Qed.

Section RdsSweep.

Variable rich : renderer.
Variable mk : string -> request.
Variable oracle : history -> string -> exn + unit.
Variables verb refusal : string.

Lemma rds_body_eq (d : DBInstance) (w : world) :
  rds_body rich mk oracle verb refusal d w =
  let id := DBInstanceIdentifier d in
  match oracle (calls w) id with
  | inr _ =>
      match markup_error rich (format_record (started_text verb id)) with
      | None =>
          (Return tt,
           push_log (push_call w (mk id) (Returned Done)) INFO
             (started_text verb id))
      | Some m => (Raise (MarkupError m), push_call w (mk id) (Returned Done))
      end
  | inl e =>
      if invalid_state e then
        match markup_error rich (format_record (refusal_text refusal id)) with
        | None =>
            (Return tt,
             push_log (push_call w (mk id) (Raised e)) ERROR
               (refusal_text refusal id))
        | Some m => (Raise (MarkupError m), push_call w (mk id) (Raised e))
        end
      else (Raise e, push_call w (mk id) (Raised e))
  end.
Proof.
  unfold rds_body, try_except_ClientError, try_except. cbn zeta.
  rewrite invoke_bind. unfold started_text, refusal_text.
  destruct (oracle (calls w) (DBInstanceIdentifier d)) as [e|[]].
  - destruct e as [code msg| | | | | |]; try reflexivity.
    unfold invalid_state.
    destruct (String.eqb code "InvalidDBInstanceState"); [|reflexivity].
    unfold logger_error. rewrite logger_log_eq.
    match goal with
    | |- context [markup_error rich ?t] => destruct (markup_error rich t)
    end; reflexivity.
  - unfold logger_info. rewrite logger_log_eq.
    match goal with
    | |- context [markup_error rich ?t] => destruct (markup_error rich t)
    end; reflexivity.
Qed.

Lemma rds_loop (ds : list DBInstance) (w : world) :
  exists tr ls,
    calls (snd (for_each ds (rds_body rich mk oracle verb refusal) w))
    = calls w ++ tr
    /\ logged (snd (for_each ds (rds_body rich mk oracle verb refusal) w))
       = logged w ++ ls
    /\ rds_run rich mk verb refusal ds tr ls
         (fst (for_each ds (rds_body rich mk oracle verb refusal) w)).
Proof.
  revert w. induction ds as [|d ds IH]; intros w.
  - exists [], []. cbn. rewrite !app_nil_r. repeat split. constructor.
  - cbn [for_each]. unfold bind. rewrite rds_body_eq. cbn zeta.
    destruct (oracle (calls w) (DBInstanceIdentifier d)) as [e|[]] eqn:EO.
    + destruct (invalid_state e) eqn:EI.
      * destruct (markup_error rich
                    (format_record
                       (refusal_text refusal (DBInstanceIdentifier d))))
          as [m|] eqn:ER.
        -- eexists [_], []. cbn [fst snd]. autorewrite with world.
           rewrite app_nil_r. repeat split.
           apply rds_refused_unrendered; assumption.
        -- match goal with
           | |- context [for_each ds _ ?w1] =>
               destruct (IH w1) as (tr & ls & Hc & Hl & Hr)
           end.
           autorewrite with world in Hc, Hl.
           eexists (_ :: tr), (_ :: ls). rewrite Hc, Hl, !app_cons_assoc.
           repeat split. apply rds_refused; assumption.
      * eexists [_], []. cbn [fst snd]. autorewrite with world.
        rewrite app_nil_r. repeat split. apply rds_aborted; assumption.
    + destruct (markup_error rich
                  (format_record (started_text verb (DBInstanceIdentifier d))))
        as [m|] eqn:ER.
      * eexists [_], []. cbn [fst snd]. autorewrite with world.
        rewrite app_nil_r. repeat split.
        apply rds_started_unrendered; assumption.
      * match goal with
        | |- context [for_each ds _ ?w1] =>
            destruct (IH w1) as (tr & ls & Hc & Hl & Hr)
        end.
        autorewrite with world in Hc, Hl.
        eexists (_ :: tr), (_ :: ls). rewrite Hc, Hl, !app_cons_assoc.
        repeat split. apply rds_returned; assumption.
Qed.

End RdsSweep.

(** The guarded block of the database pass. *)
Lemma rds_guarded_eq (rich : renderer) (aws : provider) (mk : string -> request)
  (oracle : history -> string -> exn + unit) (verb refusal : string)
  (w : world) :
  (response <- rds_describe_db_instances aws ;;
   if truthy response then
     for_each response (rds_body rich mk oracle verb refusal)
   else raise (Exception "No RDS instances found.")) w
  = match describe_db_instances aws (calls w) with
    | inl e => (Raise e, push_call w DescribeDBInstances (Raised e))
    | inr ds =>
        let w1 := push_call w DescribeDBInstances (Returned (DBInstances ds)) in
        if truthy ds then for_each ds (rds_body rich mk oracle verb refusal) w1
        else (Raise (Exception "No RDS instances found."), w1)
    end.
Proof.
  unfold rds_describe_db_instances. rewrite invoke_bind.
  destruct (describe_db_instances aws (calls w)) as [e|ds]; [reflexivity|].
  cbn zeta. destruct (truthy ds); reflexivity.
Qed.

Lemma rds_sweep_cases (rich : renderer) (aws : provider)
  (mk : string -> request) (oracle : history -> string -> exn + unit)
  (verb refusal : string) (w : world) :
  (exists e,
      describe_db_instances aws (calls w) = inl e
      /\ calls (snd (rds_sweep rich aws mk oracle verb refusal w))
         = calls w ++ [(DescribeDBInstances, Raised e)]
      /\ logged (snd (rds_sweep rich aws mk oracle verb refusal w))
         = logged w ++ snd (closing rich (Raise e))
      /\ fst (rds_sweep rich aws mk oracle verb refusal w)
         = fst (closing rich (Raise e)))
  \/ exists ds tr ls r,
       describe_db_instances aws (calls w) = inr ds
       /\ calls (snd (rds_sweep rich aws mk oracle verb refusal w))
          = calls w ++ (DescribeDBInstances, Returned (DBInstances ds)) :: tr
       /\ rds_run rich mk verb refusal ds tr ls r
       /\ logged (snd (rds_sweep rich aws mk oracle verb refusal w))
          = logged w ++ ls
              ++ snd (closing rich
                        (if truthy ds then r
                         else Raise (Exception "No RDS instances found.")))
       /\ fst (rds_sweep rich aws mk oracle verb refusal w)
          = fst (closing rich
                   (if truthy ds then r
                    else Raise (Exception "No RDS instances found."))).
Proof.
  unfold rds_sweep.
  match goal with
  | |- context [try_except ?m ?h w] =>
      destruct (try_logged rich m w) as (Hr & Hc & Hl & _)
  end.
  cbn zeta in Hr, Hc, Hl. rewrite Hr, Hc, Hl, rds_guarded_eq.
  destruct (describe_db_instances aws (calls w)) as [e|ds] eqn:Hd.
  - left. exists e. cbn [fst snd]. autorewrite with world. auto.
  - right. cbn zeta. destruct ds as [|d0 ds']; cbn [truthy].
    + exists [], [], [], (Return tt). cbn [fst snd truthy].
      autorewrite with world. repeat split. constructor.
    + match goal with
      | |- context [for_each ?l ?b ?w1] =>
          destruct (rds_loop rich mk oracle verb refusal l w1)
            as (tr & ls & Hc1 & Hl1 & Hrun)
      end.
      autorewrite with world in Hc1, Hl1.
      exists (d0 :: ds'), tr, ls. eexists. cbn [truthy].
      rewrite Hc1, Hl1, app_cons_assoc, <- app_assoc.
      repeat split. exact Hrun.
Qed.

(** The handler renders the two lines of every instance of [ds]. *)
Lemma plain_identifiers_render (rich : renderer) (verb refusal : string)
  (ds : list DBInstance) :
  has_bracket verb = false -> has_bracket refusal = false ->
  plain_identifiers ds ->
  Forall
    (fun d =>
       renders rich (started_text verb (DBInstanceIdentifier d))
       /\ renders rich (refusal_text refusal (DBInstanceIdentifier d)))
    ds.
Proof.
  intros Hv Hr Hds. unfold plain_identifiers in Hds.
  eapply Forall_impl; [|exact Hds]. intros d Hd. cbn beta in Hd.
  split; apply plain_renders; unfold started_text, refusal_text;
    rewrite !has_bracket_app, ?Hv, ?Hr, Hd; reflexivity.
Qed.

Section RdsRun.

Variable rich : renderer.
Variable mk : string -> request.
Variables verb refusal : string.

Lemma rds_run_abort (ds : list DBInstance) (tr : history)
  (ls : list log_record) (r : result unit) :
  rds_run rich mk verb refusal ds tr ls r ->
  forall pre rq e post,
    tr = pre ++ (rq, Raised e) :: post -> invalid_state e = false ->
    post = [] /\ r = Raise e.
Proof.
  induction 1 as [|d rest tr ls r Hl _ IH|d rest e0 tr ls r He0 Hl _ IH
                 |d rest e0 He0|d rest m Hm|d rest e0 m He0 Hm];
    intros pre rq e post Htr He.
  - destruct pre; discriminate.
  - destruct pre as [|c pre]; [discriminate|].
    inversion Htr; subst. eapply IH; eauto.
  - destruct pre as [|c pre].
    + inversion Htr; subst. congruence.
    + inversion Htr; subst. eapply IH; eauto.
  - destruct pre as [|c pre].
    + inversion Htr; subst. auto.
    + inversion Htr as [[Hc Hnil]]. destruct pre; discriminate.
  - destruct pre as [|c pre]; [discriminate|].
    inversion Htr as [[Hc Hnil]]. destruct pre; discriminate.
  - destruct pre as [|c pre].
    + inversion Htr; subst. congruence.
    + inversion Htr as [[Hc Hnil]]. destruct pre; discriminate.
Qed.

Lemma rds_run_refusal_logged (ds : list DBInstance) (tr : history)
  (ls : list log_record) (r : result unit) :
  rds_run rich mk verb refusal ds tr ls r ->
  Forall
    (fun d =>
       renders rich (started_text verb (DBInstanceIdentifier d))
       /\ renders rich (refusal_text refusal (DBInstanceIdentifier d)))
    ds ->
  forall rq e,
    In (rq, Raised e) tr -> invalid_state e = true ->
    exists d, In d ds /\ rq = mk (DBInstanceIdentifier d)
              /\ In (refusal_line refusal (DBInstanceIdentifier d)) ls.
Proof.
  induction 1 as [|d rest tr ls r Hl _ IH|d rest e0 tr ls r He0 Hl _ IH
                 |d rest e0 He0|d rest m Hm|d rest e0 m He0 Hm];
    intros Hok rq e Hin He.
  - destruct Hin.
  - inversion Hok; subst. destruct Hin as [Heq|Hin]; [discriminate|].
    destruct (IH H2 _ _ Hin He) as (d' & Hd' & Hrq & Hline).
    exists d'. auto using in_cons.
  - inversion Hok; subst. destruct Hin as [Heq|Hin].
    + inversion Heq; subst. exists d. auto using in_eq.
    + destruct (IH H2 _ _ Hin He) as (d' & Hd' & Hrq & Hline).
      exists d'. auto using in_cons.
  - destruct Hin as [Heq|[]]. inversion Heq; subst. congruence.
  - destruct Hin as [Heq|[]]. discriminate.
  - inversion Hok as [|d0 l0 [_ Hren] _]; subst.
    unfold renders in Hren. congruence.
Qed.

Lemma rds_run_reach (ds : list DBInstance) (tr : history)
  (ls : list log_record) (r : result unit) :
  rds_run rich mk verb refusal ds tr ls r ->
  Forall
    (fun d =>
       renders rich (started_text verb (DBInstanceIdentifier d))
       /\ renders rich (refusal_text refusal (DBInstanceIdentifier d)))
    ds ->
  (r = Return tt
   /\ map fst tr = map (fun d => mk (DBInstanceIdentifier d)) ds)
  \/ exists pre d rest e,
       r = Raise e /\ ds = pre ++ d :: rest /\ invalid_state e = false
       /\ In (mk (DBInstanceIdentifier d), Raised e) tr
       /\ map fst tr = map (fun d => mk (DBInstanceIdentifier d)) (pre ++ [d]).
Proof.
  induction 1 as [|d rest tr ls r Hl _ IH|d rest e0 tr ls r He0 Hl _ IH
                 |d rest e0 He0|d rest m Hm|d rest e0 m He0 Hm];
    intros Hok.
  - left. auto.
  - inversion Hok; subst.
    destruct (IH H2)
      as [[Hr Htr]|(pre & d' & post & e & Hr & Hds & He & Hin & Htr)].
    + left. cbn [map fst ok]. rewrite Htr. auto.
    + right. exists (d :: pre), d', post, e. cbn [map fst ok app].
      rewrite Htr, Hds. repeat split; auto using in_cons.
  - inversion Hok; subst.
    destruct (IH H2)
      as [[Hr Htr]|(pre & d' & post & e & Hr & Hds & He & Hin & Htr)].
    + left. cbn [map fst]. rewrite Htr. auto.
    + right. exists (d :: pre), d', post, e. cbn [map fst app].
      rewrite Htr, Hds. repeat split; auto using in_cons.
  - right. exists [], d, rest, e0. cbn. repeat split; auto.
  - inversion Hok as [|d0 l0 [Hren _] _]; subst.
    unfold renders in Hren. congruence.
  - inversion Hok as [|d0 l0 [_ Hren] _]; subst.
    unfold renders in Hren. congruence.
Qed.

End RdsRun.

Lemma rds_sweep_tolerant (rich : renderer) (aws : provider)
  (mk : string -> request) (oracle : history -> string -> exn + unit)
  (verb refusal : string) (w : world) (ds : list DBInstance) :
  (forall id id', mk id = mk id' -> id = id') ->
  has_bracket verb = false -> has_bracket refusal = false ->
  describe_db_instances aws (calls w) = inr ds ->
  plain_identifiers ds ->
  rds_tolerant mk refusal ds w
    (snd (rds_sweep rich aws mk oracle verb refusal w)).
Proof.
  intros Hinj Hv Hrf Hd Hplain.
  pose proof (plain_identifiers_render rich verb refusal ds Hv Hrf Hplain)
    as Hok.
  destruct (rds_sweep_cases rich aws mk oracle verb refusal w)
    as [(e & He & _)|(ds' & tr & ls & r & Hd' & Hc & Hr & Hl & _)];
    [congruence|].
  assert (ds' = ds) by congruence. subst ds'.
  unfold rds_tolerant, new_requests.
  rewrite (new_calls_app _ _ _ Hc), (new_logged_app _ _ _ Hl).
  split.
  - intros id e [Heq|Hin] He; [discriminate|].
    destruct (rds_run_refusal_logged _ _ _ _ _ _ _ _ Hr Hok _ _ Hin He)
      as (d & _ & Hrq & Hline).
    apply Hinj in Hrq. subst id. apply in_or_app. auto.
  - cbn [map fst].
    destruct (rds_run_reach _ _ _ _ _ _ _ _ Hr Hok)
      as [[_ Htr]|(pre & d & rest & e & _ & Hds & He & Hin & Htr)].
    + left. now rewrite Htr.
    + right. exists pre, d, rest, e. rewrite Htr. auto using in_cons.
Qed.

Lemma rds_tolerant_only_refusals (mk : string -> request) (refusal : string)
  (ds : list DBInstance) (w w' : world) :
  rds_tolerant mk refusal ds w w' ->
  only_refusals w w' ->
  refusals_tolerated mk refusal ds w w'.
Proof.
  intros [Hlines Hreach] Honly. split.
  - intros id e Hin. apply (Hlines id e Hin). exact (Honly _ _ Hin).
  - destruct Hreach as [Hall|(pre & d & rest & e & _ & He & Hin & _)];
      [exact Hall|].
    apply Honly in Hin. congruence.
Qed.

Lemma start_rds_db_two_instances (rich : renderer) (aws : provider) (w : world)
  (ds : list DBInstance) :
  describe_db_instances aws (calls w) = inr ds ->
  plain_identifiers ds ->
  two_instance_example rich aws w ds.
Proof.
  intros Hd Hplain a b e Hds described started_a Ha Hb He.
  subst described started_a. unfold ok in *. subst ds.
  pose proof (plain_identifiers_render rich "Started" start_refusal [a; b]
                eq_refl eq_refl Hplain) as Hok.
  inversion Hok as [|x l [Hsa _] Hok']; subst.
  inversion Hok' as [|x l [_ Hrb] _]; subst.
  unfold renders in Hsa, Hrb.
  assert (Hrun : start_rds_db rich aws w
                 = (Return tt,
                    push_log
                      (push_call
                         (push_log
                            (push_call
                               (push_call w DescribeDBInstances
                                  (Returned (DBInstances [a; b])))
                               (StartDBInstance (DBInstanceIdentifier a))
                               (Returned Done))
                            INFO (started_text "Started" (DBInstanceIdentifier a)))
                         (StartDBInstance (DBInstanceIdentifier b)) (Raised e))
                      ERROR
                      (refusal_text start_refusal (DBInstanceIdentifier b)))).
  { rewrite start_rds_db_sweep. unfold rds_sweep, try_except.
    rewrite rds_guarded_eq, Hd. cbn [truthy for_each]. unfold bind.
    rewrite rds_body_eq. cbn zeta. autorewrite with world. rewrite Ha, Hsa.
    rewrite rds_body_eq. cbn zeta. autorewrite with world.
    rewrite <- app_assoc. cbn [app]. rewrite Hb, He, Hrb. reflexivity. }
  rewrite Hrun. cbn [snd]. split.
  - apply new_calls_app. autorewrite with world. rewrite <- !app_assoc.
    reflexivity.
  - apply new_logged_app. autorewrite with world. rewrite <- !app_assoc.
    reflexivity.
Qed.

(** C4.  When the provider refuses a database instance with
    ["InvalidDBInstanceState"], [start_rds_db] / [stop_rds_db] log the
    refusal line for that instance and go on with the next one.  For RDS
    identifiers, which hold no bracket: every refusal has its line in the
    log; the pass reaches every enumerated instance unless a call raises
    something other than a refusal; hence, when refusals are the only
    exceptions of the run, every enumerated instance is attempted.  With
    two instances, the first started and the second refused, both are
    attempted and only the second gets a refusal line. *)
Theorem rds_invalid_state_tolerated (rich : renderer) (aws : provider)
  (w : world) (ds : list DBInstance) :
  describe_db_instances aws (calls w) = inr ds ->
  plain_identifiers ds ->
  (rds_tolerant StartDBInstance start_refusal ds w
     (snd (start_rds_db rich aws w))
   /\ rds_tolerant StopDBInstance stop_refusal ds w
        (snd (stop_rds_db rich aws w)))
  /\ ((only_refusals w (snd (start_rds_db rich aws w)) ->
       refusals_tolerated StartDBInstance start_refusal ds w
         (snd (start_rds_db rich aws w)))
      /\ (only_refusals w (snd (stop_rds_db rich aws w)) ->
          refusals_tolerated StopDBInstance stop_refusal ds w
            (snd (stop_rds_db rich aws w))))
  /\ two_instance_example rich aws w ds.
Proof.
  intros Hd Hplain.
  assert (Hstart : rds_tolerant StartDBInstance start_refusal ds w
                     (snd (start_rds_db rich aws w))).
  { rewrite start_rds_db_sweep.
    apply rds_sweep_tolerant; try assumption; try reflexivity. congruence. }
  assert (Hstop : rds_tolerant StopDBInstance stop_refusal ds w
                    (snd (stop_rds_db rich aws w))).
  { rewrite stop_rds_db_sweep.
    apply rds_sweep_tolerant; try assumption; try reflexivity. congruence. }
  split; [split; assumption|]. split.
  - split; intros Honly; eapply rds_tolerant_only_refusals; eassumption.
  - apply start_rds_db_two_instances; assumption.
Qed.

Lemma rds_sweep_abort (rich : renderer) (aws : provider)
  (mk : string -> request) (oracle : history -> string -> exn + unit)
  (verb refusal : string) (w : world) :
  (forall id, mk id <> DescribeDBInstances) ->
  rds_abort rich mk w (rds_sweep rich aws mk oracle verb refusal w).
Proof.
  intros Hmk pre id e post Hsplit He.
  destruct (rds_sweep_cases rich aws mk oracle verb refusal w)
    as [(e0 & _ & Hc & Hl & Hres)|(ds & tr & ls & r & _ & Hc & Hr & Hl & Hres)];
    rewrite (new_calls_app _ _ _ Hc) in Hsplit;
    rewrite (new_logged_app _ _ _ Hl), Hres.
  - destruct pre as [|c pre]; inversion Hsplit.
    + exfalso. eapply Hmk; eauto.
    + destruct pre; discriminate.
  - destruct pre as [|c pre]; inversion Hsplit as [[Hhead Htr]].
    destruct (rds_run_abort _ _ _ _ _ _ _ _ Hr _ _ _ _ Htr He) as [Hpost Hrun].
    subst r. split; [exact Hpost|]. intros Hren.
    assert (Hne : truthy ds = true).
    { destruct ds; [|reflexivity]. inversion Hr. }
    rewrite Hne. unfold closing. unfold renders in Hren. rewrite Hren.
    split; [reflexivity|]. exists ls. reflexivity.
Qed.

(** ** Scaling groups *)

Lemma ec2_asg_desired_capacity_loop (rich : renderer) (aws : provider)
  (desired_count min_count max_count : Z) :
  ec2_asg_desired_capacity rich aws desired_count min_count max_count
  = (asg_response <-
       try_except (asg_describe_auto_scaling_groups aws)
         (fun e => logger_error rich (retrieving_text e) ;; raise e) ;;
     for_each asg_response
       (asg_body rich aws desired_count min_count max_count)).
Proof. reflexivity. Qed.

Section AsgLoop.

Variable rich : renderer.
Variable aws : provider.
Variables desired_count min_count max_count : Z.

Lemma asg_body_eq (g : AutoScalingGroup) (w : world) :
  asg_body rich aws desired_count min_count max_count g w =
  let rq := update_call desired_count min_count max_count g in
  match update_auto_scaling_group aws (calls w) (AutoScalingGroupName g)
          min_count max_count desired_count with
  | inr _ =>
      match markup_error rich
              (format_record (updated_text desired_count g)) with
      | None =>
          (Return tt,
           push_log (push_call w rq (Returned Done)) INFO
             (updated_text desired_count g))
      | Some m => (Raise (MarkupError m), push_call w rq (Returned Done))
      end
  | inl e =>
      match markup_error rich
              (format_record (updating_text (AutoScalingGroupName g) e)) with
      | None =>
          (Raise e,
           push_log (push_call w rq (Raised e)) ERROR
             (updating_text (AutoScalingGroupName g) e))
      | Some m => (Raise (MarkupError m), push_call w rq (Raised e))
      end
  end.
Proof.
  unfold asg_body, asg_update_auto_scaling_group, try_except, bind, invoke,
    logger_error, logger_info, raise, updated_text, updating_text. cbn zeta.
  destruct (update_auto_scaling_group aws (calls w) (AutoScalingGroupName g)
              min_count max_count desired_count) as [e|[]];
    rewrite logger_log_eq;
    match goal with
    | |- context [markup_error rich ?t] => destruct (markup_error rich t)
    end; reflexivity.
Qed.

Lemma asg_loop (gs : list AutoScalingGroup) (w : world) :
  exists tr ls,
    calls
      (snd (for_each gs (asg_body rich aws desired_count min_count max_count) w))
    = calls w ++ tr
    /\ logged
         (snd (for_each gs
                 (asg_body rich aws desired_count min_count max_count) w))
       = logged w ++ ls
    /\ asg_run rich desired_count min_count max_count gs tr ls
         (fst (for_each gs
                 (asg_body rich aws desired_count min_count max_count) w)).
Proof.
  revert w. induction gs as [|g gs IH]; intros w.
  - exists [], []. cbn. rewrite !app_nil_r. repeat split. constructor.
  - cbn [for_each]. unfold bind. rewrite asg_body_eq. cbn zeta.
    destruct (update_auto_scaling_group aws (calls w) (AutoScalingGroupName g)
                min_count max_count desired_count) as [e|[]] eqn:EO.
    + destruct (markup_error rich
                  (format_record (updating_text (AutoScalingGroupName g) e)))
        as [m|] eqn:ER.
      * eexists [_], []. cbn [fst snd]. autorewrite with world.
        rewrite app_nil_r. repeat split.
        apply asg_failed_unrendered. assumption.
      * eexists [_], [_]. cbn [fst snd]. autorewrite with world.
        repeat split. apply asg_failed. assumption.
    + destruct (markup_error rich
                  (format_record (updated_text desired_count g)))
        as [m|] eqn:ER.
      * eexists [_], []. cbn [fst snd]. autorewrite with world.
        rewrite app_nil_r. repeat split.
        apply asg_updated_unrendered. assumption.
      * match goal with
        | |- context [for_each gs _ ?w1] =>
            destruct (IH w1) as (tr & ls & Hc & Hl & Hr)
        end.
        autorewrite with world in Hc, Hl.
        eexists (_ :: tr), (_ :: ls). rewrite Hc, Hl, !app_cons_assoc.
        repeat split. apply asg_updated; assumption.
Qed.

Lemma ec2_asg_desired_capacity_eq (w : world) :
  ec2_asg_desired_capacity rich aws desired_count min_count max_count w =
  match describe_auto_scaling_groups aws (calls w) with
  | inl e =>
      match markup_error rich (format_record (retrieving_text e)) with
      | None =>
          (Raise e,
           push_log (push_call w DescribeAutoScalingGroups (Raised e)) ERROR
             (retrieving_text e))
      | Some m =>
          (Raise (MarkupError m),
           push_call w DescribeAutoScalingGroups (Raised e))
      end
  | inr gs =>
      for_each gs (asg_body rich aws desired_count min_count max_count)
        (push_call w DescribeAutoScalingGroups
           (Returned (AutoScalingGroups gs)))
  end.
Proof.
  rewrite ec2_asg_desired_capacity_loop.
  unfold bind at 1, try_except, asg_describe_auto_scaling_groups, invoke.
  destruct (describe_auto_scaling_groups aws (calls w)) as [e|gs];
    [|reflexivity].
  unfold bind, logger_error. rewrite logger_log_eq.
  destruct (markup_error rich (format_record (retrieving_text e)));
    reflexivity.
Qed.

Lemma asg_cases (w : world) :
  let run :=
    ec2_asg_desired_capacity rich aws desired_count min_count max_count w in
  (exists e,
      describe_auto_scaling_groups aws (calls w) = inl e
      /\ calls (snd run) = calls w ++ [(DescribeAutoScalingGroups, Raised e)]
      /\ ((renders rich (retrieving_text e)
           /\ fst run = Raise e
           /\ logged (snd run) = logged w ++ [retrieving_line e])
          \/ exists m, fst run = Raise (MarkupError m)))
  \/ exists gs tr ls,
       describe_auto_scaling_groups aws (calls w) = inr gs
       /\ calls (snd run)
          = calls w
              ++ (DescribeAutoScalingGroups, Returned (AutoScalingGroups gs)) :: tr
       /\ logged (snd run) = logged w ++ ls
       /\ asg_run rich desired_count min_count max_count gs tr ls (fst run).
Proof.
  cbn zeta. rewrite ec2_asg_desired_capacity_eq.
  destruct (describe_auto_scaling_groups aws (calls w)) as [e|gs] eqn:Hd.
  - left. exists e. split; [reflexivity|].
    destruct (markup_error rich (format_record (retrieving_text e)))
      as [m|] eqn:ER; cbn [fst snd]; autorewrite with world.
    + split; [reflexivity|]. right. exists m. reflexivity.
    + split; [reflexivity|]. left. auto.
  - right.
    match goal with
    | |- context [for_each gs ?b ?w1] =>
        destruct (asg_loop gs w1) as (tr & ls & Hc & Hl & Hr)
    end.
    autorewrite with world in Hc, Hl.
    exists gs, tr, ls. rewrite Hc, Hl, app_cons_assoc. auto.
Qed.

End AsgLoop.

Lemma asg_run_failure (rich : renderer) (desired_count min_count max_count : Z)
  (gs : list AutoScalingGroup) (tr : history) (ls : list log_record)
  (r : result unit) :
  asg_run rich desired_count min_count max_count gs tr ls r ->
  forall pre name mn mx d e post,
    tr = pre ++ (UpdateAutoScalingGroup name mn mx d, Raised e) :: post ->
    post = []
    /\ (renders rich (updating_text name e) ->
        r = Raise e /\ exists ls0, ls = ls0 ++ [updating_line name e]).
Proof.
  induction 1 as [|g rest tr ls r Hl _ IH|g rest m Hm|g rest e0 Hl
                 |g rest e0 m Hm];
    intros pre name mn mx d e post Htr.
  - destruct pre; discriminate.
  - destruct pre as [|c pre]; [discriminate|].
    inversion Htr; subst.
    destruct (IH _ _ _ _ _ _ _ eq_refl) as (Hpost & Hrest).
    split; [exact Hpost|]. intros Hren.
    destruct (Hrest Hren) as (Hr & ls0 & Hls).
    split; [exact Hr|]. exists (updated_line desired_count g :: ls0).
    rewrite Hls. reflexivity.
  - destruct pre as [|c pre]; [discriminate|].
    inversion Htr as [[Hc Hnil]]. destruct pre; discriminate.
  - destruct pre as [|c pre].
    + inversion Htr; subst. split; [reflexivity|]. intros _.
      split; [reflexivity|]. exists []. reflexivity.
    + inversion Htr as [[Hc Hnil]]. destruct pre; discriminate.
  - destruct pre as [|c pre].
    + inversion Htr; subst. split; [reflexivity|]. intros Hren.
      unfold renders in Hren. unfold update_call in *. congruence.
    + inversion Htr as [[Hc Hnil]]. destruct pre; discriminate.
Qed.

Lemma asg_run_calls (rich : renderer) (desired_count min_count max_count : Z)
  (gs : list AutoScalingGroup) (tr : history) (ls : list log_record)
  (r : result unit) :
  asg_run rich desired_count min_count max_count gs tr ls r ->
  Forall
    (fun c =>
       exists name,
         fst c = UpdateAutoScalingGroup name min_count max_count desired_count)
    tr.
Proof.
  induction 1 as [|g rest tr ls r _ _ IH|g rest m _|g rest e _|g rest e m _].
  - constructor.
  - constructor; [eexists; reflexivity|exact IH].
  - constructor; [eexists; reflexivity|constructor].
  - constructor; [eexists; reflexivity|constructor].
  - constructor; [eexists; reflexivity|constructor].
Qed.

Lemma asg_run_prefix (rich : renderer) (desired_count min_count max_count : Z)
  (gs : list AutoScalingGroup) (tr : history) (ls : list log_record)
  (r : result unit) :
  asg_run rich desired_count min_count max_count gs tr ls r ->
  exists k,
    k <= List.length gs
    /\ map fst tr
       = map (update_call desired_count min_count max_count) (firstn k gs)
    /\ (r = Return tt -> k = List.length gs).
Proof.
  induction 1 as [|g rest tr ls r _ _ IH|g rest m _|g rest e _|g rest e m _].
  - exists 0. cbn. auto.
  - destruct IH as (k & Hk & Htr & Hret). exists (S k).
    cbn [List.length firstn map fst ok]. rewrite Htr.
    repeat split; auto with arith.
  - exists 1. cbn [List.length firstn map fst ok]. repeat split.
    + auto with arith.
    + discriminate.
  - exists 1. cbn [List.length firstn map fst]. repeat split.
    + auto with arith.
    + discriminate.
  - exists 1. cbn [List.length firstn map fst]. repeat split.
    + auto with arith.
    + discriminate.
Qed.

Lemma asg_capacity_phase (rich : renderer) (aws : provider)
  (desired_count min_count max_count : Z) (w : world) :
  exists t,
    calls
      (snd (ec2_asg_desired_capacity rich aws desired_count min_count
              max_count w))
    = calls w ++ t
    /\ asg_phase desired_count min_count max_count t.
Proof.
  destruct (asg_cases rich aws desired_count min_count max_count w)
    as [(e & _ & Hc & _)|(gs & tr & ls & _ & Hc & _ & Hr)];
    cbn zeta in *; eexists; (split; [exact Hc|]).
  - exists (Raised e), []. auto.
  - exists (Returned (AutoScalingGroups gs)), tr. split; [reflexivity|].
    eapply asg_run_calls; eauto.
Qed.

(** ** The composite operations *)







(** C2.  [start_all_resources] passes the literals [(0, 2, 1)] to the
    parameters [(desired_count, min_count, max_count)]: on the sample site,
    where every call is accepted, each scaling group is asked for
    MinSize=2, MaxSize=1, DesiredCapacity=0, a minimum above the maximum,
    and not for desired=0, min=0, max=2 as the specification states. *)
Theorem start_all_resources_capacity_arguments :
  new_requests empty_world
    (snd (start_all_resources tag_checker site_provider empty_world))
  = [DescribeInstances; StartInstances ["i-0a1"]; StartInstances ["i-0b2"];
     DescribeDBInstances; StartDBInstance "orders"; StartDBInstance "reports";
     DescribeAutoScalingGroups;
     UpdateAutoScalingGroup "web-asg" 2 1 0;
     UpdateAutoScalingGroup "batch-asg" 2 1 0]
  /\ ~ start_all_capacity_as_stated tag_checker site_provider empty_world.
Proof.
  assert (Hrun : new_requests empty_world
                   (snd (start_all_resources tag_checker site_provider
                           empty_world))
                 = [DescribeInstances; StartInstances ["i-0a1"];
                    StartInstances ["i-0b2"]; DescribeDBInstances;
                    StartDBInstance "orders"; StartDBInstance "reports";
                    DescribeAutoScalingGroups;
                    UpdateAutoScalingGroup "web-asg" 2 1 0;
                    UpdateAutoScalingGroup "batch-asg" 2 1 0]).
  { vm_compute. reflexivity. }
  split; [exact Hrun|]. intros Hclaim.
  destruct (Hclaim "web-asg" 2%Z 1%Z 0%Z) as (_ & Hmin & _).
  - rewrite Hrun. cbn. tauto.
  - discriminate Hmin.
Qed.

(** C3.  On a fleet whose first instance is named ["[/prod]"], the success
    line of [stop_ec2_instances] is rejected by the log handler, and so is
    the text of that rejection in the handler of the operation:
    [stop_all_resources] ends on the handler's exception after one stop
    call, and neither the database stop nor the capacity update is
    invoked. *)
Theorem stop_all_resources_ends_early :
  (exists m,
      fst (stop_all_resources tag_checker prod_fleet_provider empty_world)
      = Raise (MarkupError m))
  /\ new_requests empty_world
       (snd (stop_all_resources tag_checker prod_fleet_provider empty_world))
     = [DescribeInstances; StopInstances ["i-0f6"]]
  /\ ~ stop_all_in_order_as_stated tag_checker prod_fleet_provider empty_world.
Proof.
  assert (Hrun : new_requests empty_world
                   (snd (stop_all_resources tag_checker prod_fleet_provider
                           empty_world))
                 = [DescribeInstances; StopInstances ["i-0f6"]]).
  { vm_compute. reflexivity. }
  split; [eexists; vm_compute; reflexivity|].
  split; [exact Hrun|].
  intros (t1 & t2 & t3 & Hc & _ & (o & tr & Ht2 & _) & _).
  assert (Hin : In DescribeDBInstances
                  (new_requests empty_world
                     (snd (stop_all_resources tag_checker prod_fleet_provider
                             empty_world)))).
  { unfold new_requests. rewrite Hc, Ht2, !map_app. apply in_or_app. right.
    apply in_or_app. left. cbn. auto. }
  rewrite Hrun in Hin. cbn in Hin.
  destruct Hin as [H|[H|[]]]; discriminate H.
Qed.



(** ** Errors under a handler that rejects their text *)

(** C5.  The stop of [orders] is refused with a text that holds a closing
    tag.  The refusal ends the pass, but the log handler rejects its text:
    [stop_rds_db] writes no record and ends on the handler's exception,
    where the specification has the error logged and the operation
    return. *)
Theorem stop_rds_db_error_not_logged :
  (exists m,
      fst (stop_rds_db tag_checker option_rejected_provider empty_world)
      = Raise (MarkupError m))
  /\ new_calls empty_world
       (snd (stop_rds_db tag_checker option_rejected_provider empty_world))
     = [(DescribeDBInstances, Returned (DBInstances [orders_db; reports_db]));
        (StopDBInstance "orders", Raised option_rejected)]
  /\ new_logged empty_world
       (snd (stop_rds_db tag_checker option_rejected_provider empty_world))
     = []
  /\ ~ rds_error_swallowed_as_stated tag_checker option_rejected_provider
         empty_world.
Proof.
  split; [eexists; vm_compute; reflexivity|].
  split; [vm_compute; reflexivity|].
  split; [vm_compute; reflexivity|].
  intros Hclaim.
  destruct (Hclaim
              [(DescribeDBInstances,
                Returned (DBInstances [orders_db; reports_db]))]
              "orders"%string option_rejected [])
    as (Hret & _).
  - vm_compute. reflexivity.
  - reflexivity.
  - vm_compute in Hret. discriminate Hret.
Qed.

(** C6.  The update of the group named ["web[/blue]"] is rejected.  The
    error line names the group, the log handler rejects it, and the
    [raise e] after it is not reached: the caller gets the handler's
    exception and not the provider's, and no record is written. *)
Theorem ec2_asg_desired_capacity_error_replaced :
  (exists m,
      fst (ec2_asg_desired_capacity tag_checker blue_rejected_provider 0 0 0
             empty_world)
      = Raise (MarkupError m))
  /\ new_calls empty_world
       (snd (ec2_asg_desired_capacity tag_checker blue_rejected_provider 0 0 0
               empty_world))
     = [(DescribeAutoScalingGroups,
         Returned (AutoScalingGroups [blue_asg; batch_asg]));
        (UpdateAutoScalingGroup "web[/blue]" 0 0 0, Raised validation_error)]
  /\ new_logged empty_world
       (snd (ec2_asg_desired_capacity tag_checker blue_rejected_provider 0 0 0
               empty_world))
     = []
  /\ ~ asg_error_reraised_as_stated tag_checker blue_rejected_provider 0 0 0
         empty_world.
Proof.
  split; [eexists; vm_compute; reflexivity|].
  split; [vm_compute; reflexivity|].
  split; [vm_compute; reflexivity|].
  intros Hclaim. cbn zeta in Hclaim.
  destruct (Hclaim
              [(DescribeAutoScalingGroups,
                Returned (AutoScalingGroups [blue_asg; batch_asg]))]
              "web[/blue]"%string 0%Z 0%Z 0%Z validation_error [])
    as (Hret & _).
  - vm_compute. reflexivity.
  - vm_compute in Hret. discriminate Hret.
Qed.

(** ** Status queries *)

Lemma for_fold_app {A S : Type} (xs ys : list A) (acc : S)
  (body : S -> A -> M S) (w : world) :
  for_fold (xs ++ ys) acc body w
  = (acc' <- for_fold xs acc body ;; for_fold ys acc' body) w.
Proof.
  revert acc w. induction xs as [|x xs IH]; intros acc w; cbn [for_fold app].
  - reflexivity.
  - unfold bind. destruct (body acc x w) as [[acc'|e] w1]; [|reflexivity].
    rewrite IH. reflexivity.
Qed.

Lemma for_fold_flat_map {A B S : Type} (f : A -> list B) (xs : list A)
  (acc : S) (body : S -> B -> M S) (w : world) :
  for_fold xs acc (fun acc x => for_fold (f x) acc body) w
  = for_fold (flat_map f xs) acc body w.
Proof.
  revert acc w. induction xs as [|x xs IH]; intros acc w;
    cbn [for_fold flat_map].
  - reflexivity.
  - rewrite for_fold_app. unfold bind.
    destruct (for_fold (f x) acc body w) as [[acc'|e] w1];
      [apply IH|reflexivity].
Qed.

Lemma for_fold_pure {A S : Type} (xs : list A) (acc : S) (f : S -> A -> S)
  (w : world) :
  for_fold xs acc (fun acc x => ret (f acc x)) w
  = (Return (fold_left f xs acc), w).
Proof.
  revert acc. induction xs as [|x xs IH]; intros acc; cbn [for_fold fold_left].
  - reflexivity.
  - unfold bind, ret at 1. apply IH.
Qed.

Lemma status_body_eq (f : frame) (i : Instance) (w : world) :
  status_body f i w = (lift (status_step f i), w).
Proof.
  destruct f as [instance_name table].
  unfold status_body, status_step, subscript, read_local, bind, ret, raise.
  cbn [fst snd].
  destruct (Tags i) as [tags|]; [|reflexivity].
  destruct (scan_name_tags tags instance_name); reflexivity.
Qed.

Lemma status_loop (insts : list Instance) (f : frame) (w : world) :
  for_fold insts f status_body w = (lift (status_steps insts f), w).
Proof.
  revert f. induction insts as [|i insts IH]; intros f;
    cbn [for_fold status_steps].
  - reflexivity.
  - unfold bind. rewrite status_body_eq.
    destruct (status_step f i) as [e|f']; cbn [lift]; [reflexivity|apply IH].
Qed.

Lemma check_ec2_status_eq (aws : provider) (w : world) :
  check_ec2_status aws w =
  match describe_instances aws (calls w) with
  | inl e => (Raise e, push_call w DescribeInstances (Raised e))
  | inr rs =>
      (lift
         match status_steps (all_instances rs) (None, ec2_table) with
         | inl e => inl e
         | inr f => inr (snd f)
         end,
       push_call w DescribeInstances (Returned (Reservations rs)))
  end.
Proof.
  unfold check_ec2_status, ec2_describe_instances. rewrite invoke_bind.
  destruct (describe_instances aws (calls w)) as [e|rs]; [reflexivity|].
  cbn zeta. destruct rs as [|r0 rs']; [reflexivity|]. cbn [truthy].
  unfold bind. rewrite for_fold_flat_map, status_loop.
  unfold all_instances, ec2_table.
  match goal with
  | |- context [status_steps ?l ?f0] => destruct (status_steps l f0)
  end; reflexivity.
Qed.

Lemma scan_name_tags_without_name (tags : list Tag)
  (name : option (option string)) :
  existsb is_name_key tags = false -> scan_name_tags tags name = name.
Proof.
  unfold scan_name_tags. revert name.
  induction tags as [|t tags IH]; intros name H; cbn [fold_left].
  - reflexivity.
  - cbn [existsb] in H. apply orb_false_elim in H. destruct H as [Ht Hrest].
    unfold is_name_key in Ht. destruct (Key t) as [k|]; [rewrite Ht|];
      apply IH; exact Hrest.
Qed.

Lemma status_steps_app (xs ys : list Instance) (f : frame) :
  status_steps (xs ++ ys) f =
  match status_steps xs f with
  | inl e => inl e
  | inr f' => status_steps ys f'
  end.
Proof.
  revert f. induction xs as [|x xs IH]; intros f; cbn [status_steps app].
  - reflexivity.
  - destruct (status_step f x) as [e|f']; [reflexivity|apply IH].
Qed.

Lemma status_steps_rows (xs : list Instance) (f f' : frame) :
  status_steps xs f = inr f' ->
  exists added,
    rows (snd f') = rows (snd f) ++ added
    /\ List.length added = List.length xs.
Proof.
  revert f. induction xs as [|x xs IH]; intros f H; cbn [status_steps] in H.
  - inversion H; subst. exists []. rewrite app_nil_r. auto.
  - destruct (status_step f x) as [e|f1] eqn:E1; [discriminate|].
    destruct (IH _ H) as (added & Hrows & Hlen).
    unfold status_step in E1.
    destruct (Tags x) as [tags|]; [|discriminate].
    destruct (scan_name_tags tags (fst f)) as [name|]; [|discriminate].
    inversion E1; subst f1. cbn [snd add_row rows] in Hrows.
    exists (ec2_row x name :: added). rewrite Hrows, app_cons_assoc.
    cbn [List.length]. auto.
Qed.

Lemma status_steps_repeat_name (pre post : list Instance) (i j : Instance)
  (f ft : frame) :
  status_steps (pre ++ i :: j :: post) f = inr ft ->
  has_name_tag j = false ->
  exists name,
    nth_error (rows (snd ft)) (List.length (rows (snd f)) + List.length pre)
    = Some (ec2_row i name)
    /\ nth_error (rows (snd ft))
         (S (List.length (rows (snd f)) + List.length pre))
       = Some (ec2_row j name).
Proof.
  intros H Hj. rewrite status_steps_app in H.
  destruct (status_steps pre f) as [e|f1] eqn:Epre; [discriminate|].
  destruct (status_steps_rows _ _ _ Epre) as (a1 & Hrows1 & Hlen1).
  cbn [status_steps] in H.
  destruct (status_step f1 i) as [e|f2] eqn:Ei; [discriminate|].
  destruct (status_step f2 j) as [e|f3] eqn:Ej; [discriminate|].
  destruct (status_steps_rows _ _ _ H) as (a3 & Hrows3 & _).
  unfold status_step in Ei, Ej. unfold has_name_tag in Hj.
  destruct (Tags i) as [tags_i|]; [|discriminate].
  destruct (scan_name_tags tags_i (fst f1)) as [name|]; [|discriminate].
  inversion Ei; subst f2. cbn [fst snd] in Ej.
  destruct (Tags j) as [tags_j|]; [|discriminate].
  rewrite (scan_name_tags_without_name _ _ Hj) in Ej.
  inversion Ej; subst f3. cbn [snd add_row rows] in Hrows3.
  exists name. rewrite Hrows3, Hrows1, <- Hlen1, <- length_app.
  rewrite <- !app_assoc, app_assoc. cbn [app]. unfold ec2_row.
  split.
  - rewrite nth_error_app2 by lia. rewrite Nat.sub_diag. reflexivity.
  - rewrite nth_error_app2 by lia.
    replace (S (List.length (rows (snd f) ++ a1))
             - List.length (rows (snd f) ++ a1)) with 1 by lia.
    reflexivity.
Qed.

(** C10.  [check_ec2_status] has no handler of its own: an exception of
    the enumeration reaches the caller; a response whose first listed
    instance has no tag with key ["Name"] makes it raise instead of
    returning a table; and when it does return a table, the row of an
    instance without a ["Name"] tag carries the name of the instance
    processed just before it. *)
Theorem check_ec2_status_not_total (aws : provider) (w : world) :
  check_ec2_status_partial aws w.
Proof.
  unfold check_ec2_status_partial. rewrite check_ec2_status_eq.
  split; [|split].
  - intros e Hd. rewrite Hd. reflexivity.
  - intros rs i rest Hd Hall Hi. rewrite Hd, Hall. cbn [fst status_steps].
    unfold status_step, has_name_tag in *. cbn [fst].
    destruct (Tags i) as [tags|]; [|reflexivity].
    rewrite (scan_name_tags_without_name _ _ Hi). reflexivity.
  - intros rs pre i j post table Hd Hall Hj. rewrite Hd, Hall. cbn [fst].
    destruct (status_steps (pre ++ i :: j :: post) (None, ec2_table))
      as [e|ft] eqn:E; cbn [lift]; [discriminate|].
    intros Hret. inversion Hret; subst table.
    destruct (status_steps_repeat_name _ _ _ _ _ _ E Hj) as (name & Hi' & Hj').
    exists name. auto.
Qed.

(** *** Status queries only read *)

Lemma reads_only_ret {A : Type} (a : A) : reads_only (ret a).
Proof. intros w. exists []. cbn. rewrite app_nil_r. auto. Qed.

Lemma reads_only_raise {A : Type} (e : exn) : reads_only (@raise A e).
Proof. intros w. exists []. cbn. rewrite app_nil_r. auto. Qed.

Lemma reads_only_emit (ev : console_event) : reads_only (emit ev).
Proof. intros w. exists []. cbn. rewrite app_nil_r. auto. Qed.

Lemma reads_only_invoke {A : Type} (rq : request)
  (oracle : history -> exn + A) (wrap : A -> reply) :
  read_only rq = true -> reads_only (invoke rq oracle wrap).
Proof.
  intros Hrq w. unfold invoke.
  destruct (oracle (calls w)); eexists [_]; cbn [fst snd];
    autorewrite with world; split; auto.
Qed.

Lemma reads_only_bind {A B : Type} (m : M A) (k : A -> M B) :
  reads_only m -> (forall a, reads_only (k a)) -> reads_only (bind m k).
Proof.
  intros Hm Hk w. unfold bind. destruct (Hm w) as (t1 & Hc1 & Hr1).
  destruct (m w) as [[a|e] w1]; cbn [snd] in *.
  - destruct (Hk a w1) as (t2 & Hc2 & Hr2). exists (t1 ++ t2).
    rewrite Hc2, Hc1, app_assoc. split; [reflexivity|].
    apply Forall_app. auto.
  - exists t1. auto.
Qed.

Lemma reads_only_for_fold {A S : Type} (xs : list A) (acc : S)
  (body : S -> A -> M S) :
  (forall acc x, reads_only (body acc x)) -> reads_only (for_fold xs acc body).
Proof.
  intros Hbody. revert acc.
  induction xs as [|x xs IH]; intros acc; cbn [for_fold].
  - apply reads_only_ret.
  - apply reads_only_bind; auto.
Qed.

Lemma reads_only_subscript {A : Type} (key : string) (field : option A) :
  reads_only (subscript key field).
Proof.
  destruct field; [apply reads_only_ret|apply reads_only_raise].
Qed.

Lemma reads_only_read_local {A : Type} (var : string) (slot : option A) :
  reads_only (read_local var slot).
Proof.
  destruct slot; [apply reads_only_ret|apply reads_only_raise].
Qed.

Lemma check_ec2_status_reads_only (aws : provider) :
  reads_only (check_ec2_status aws).
Proof.
  unfold check_ec2_status. apply reads_only_bind.
  - apply reads_only_invoke. reflexivity.
  - intros rs. cbn zeta. destruct (truthy rs); [|apply reads_only_ret].
    apply reads_only_bind; [|intros; apply reads_only_ret].
    apply reads_only_for_fold. intros f0 reservation.
    apply reads_only_for_fold. intros [instance_name table] instance.
    apply reads_only_bind; [apply reads_only_subscript|]. intros tags.
    apply reads_only_bind; [apply reads_only_read_local|]. intros name.
    apply reads_only_ret.
Qed.

Lemma check_rds_status_reads_only (aws : provider) :
  reads_only (check_rds_status aws).
Proof.
  unfold check_rds_status. apply reads_only_bind.
  - apply reads_only_invoke. reflexivity.
  - intros ds. cbn zeta. destruct (truthy ds); [|apply reads_only_ret].
    apply reads_only_for_fold. intros table d. apply reads_only_ret.
Qed.

Lemma check_asg_status_reads_only (aws : provider) :
  reads_only (check_asg_status aws).
Proof.
  unfold check_asg_status. apply reads_only_bind.
  - apply reads_only_invoke. reflexivity.
  - intros gs. cbn zeta.
    apply reads_only_for_fold. intros table g. apply reads_only_ret.
Qed.

Lemma reads_only_print_table (rich : renderer) (t : Table) :
  reads_only (print_table rich t).
Proof.
  intros w. exists []. unfold print_table.
  destruct (table_error rich t); cbn; rewrite app_nil_r; auto.
Qed.

(** C8.  The three status queries, and [check_status] that chains them,
    keep the call history they find and add describe calls only: no start,
    stop or update is ever issued. *)
Theorem status_queries_read_only (rich : renderer) (aws : provider) :
  reads_only (check_ec2_status aws)
  /\ reads_only (check_rds_status aws)
  /\ reads_only (check_asg_status aws)
  /\ reads_only (check_status rich aws).
Proof.
  repeat split.
  - apply check_ec2_status_reads_only.
  - apply check_rds_status_reads_only.
  - apply check_asg_status_reads_only.
  - unfold check_status.
    apply reads_only_bind; [apply check_ec2_status_reads_only|intros t1].
    apply reads_only_bind; [apply reads_only_print_table|intros _].
    apply reads_only_bind; [apply check_rds_status_reads_only|intros t2].
    apply reads_only_bind; [apply reads_only_print_table|intros _].
    apply reads_only_bind; [apply check_asg_status_reads_only|intros t3].
    apply reads_only_print_table.
Qed.

(** ** Empty enumerations *)

(** C9, as amended.  When the enumeration returns an empty list of
    reservations (resp. of database instances), the compute (resp.
    database) start and stop make no further call, log one ERROR record
    saying that nothing was found, and return.  The capacity update is
    different: with an empty list of groups it logs nothing and returns. *)
Theorem empty_enumeration (rich : renderer) (aws : provider) (w : world) :
  (describe_instances aws (calls w) = inr [] ->
   logs_nothing_found "No EC2 Instance found!" DescribeInstances
     (Reservations []) w (start_ec2_instances rich aws w)
   /\ logs_nothing_found "No EC2 instances found!" DescribeInstances
        (Reservations []) w (stop_ec2_instances rich aws w))
  /\ (describe_db_instances aws (calls w) = inr [] ->
      logs_nothing_found "No RDS instances found." DescribeDBInstances
        (DBInstances []) w (start_rds_db rich aws w)
      /\ logs_nothing_found "No RDS instances found." DescribeDBInstances
           (DBInstances []) w (stop_rds_db rich aws w))
  /\ (describe_auto_scaling_groups aws (calls w) = inr [] ->
      forall desired_count min_count max_count,
        ec2_asg_desired_capacity rich aws desired_count min_count max_count w
        = (Return tt,
           push_call w DescribeAutoScalingGroups
             (Returned (AutoScalingGroups [])))).
Proof.
  unfold logs_nothing_found. split; [|split].
  - intros Hd. unfold start_ec2_instances, stop_ec2_instances, try_except,
      ec2_describe_instances.
    rewrite !invoke_bind, Hd. split; reflexivity.
  - intros Hd. unfold start_rds_db, stop_rds_db, try_except,
      rds_describe_db_instances.
    rewrite !invoke_bind, Hd. split; reflexivity.
  - intros Hd desired_count min_count max_count.
    rewrite ec2_asg_desired_capacity_eq, Hd. reflexivity.
Qed.

Lemma empty_groups_counterexample :
  describe_auto_scaling_groups no_groups_provider (calls empty_world) = inr []
  /\ ec2_asg_desired_capacity tag_checker no_groups_provider 0 0 0 empty_world
     = (Return tt,
        mkWorld
          [(DescribeAutoScalingGroups, Returned (AutoScalingGroups []))] [] [])
  /\ ~ empty_groups_logged_as_stated tag_checker no_groups_provider empty_world.
Proof.
  split; [reflexivity|]. split; [reflexivity|].
  intros Hclaim. apply (Hclaim eq_refl 0%Z 0%Z 0%Z). reflexivity.
Qed.

(** ** The menu *)








(** * Concrete runs *)

Example start_fleet :
  new_requests empty_world
    (snd (start_ec2_instances tag_checker fleet_provider empty_world))
  = [DescribeInstances; StartInstances ["i-0a1"]; StartInstances ["i-0b2"]].
Proof. vm_compute. reflexivity. Qed.

Example start_fleet_log :
  logged (snd (start_ec2_instances tag_checker fleet_provider empty_world))
  = [(INFO, "Started EC2 instance i-0a1 (web1)");
     (INFO, "Started EC2 instance i-0b2 (web2)")].
Proof. vm_compute. reflexivity. Qed.

Example stop_fleet_web1_terminated :
  new_requests empty_world
    (snd (stop_ec2_instances tag_checker fleet_provider_web1_terminated
            empty_world))
  = [DescribeInstances; StopInstances ["i-0a1"]].
Proof. vm_compute. reflexivity. Qed.

(** The first instance of [prod_fleet] is started, its success line is
    rejected, and so is the text of the rejection: nothing is logged and
    [web2] is not started. *)
Example start_prod_fleet :
  exists m,
    start_ec2_instances tag_checker prod_fleet_provider empty_world
    = (Raise (MarkupError m),
       mkWorld
         [(DescribeInstances, Returned (Reservations prod_fleet));
          ok (StartInstances ["i-0f6"])]
         [] []).
Proof. eexists. vm_compute. reflexivity. Qed.

Example start_rds_mixed_faults_log :
  logged (snd (start_rds_db tag_checker mixed_faults_provider empty_world))
  = [(ERROR, "RDS instance orders cannot be started as it is not in a valid state!");
     (ERROR, str_exn access_denied)].
Proof. vm_compute. reflexivity. Qed.

Example status_rows_unnamed_second :
  fst (check_ec2_status unnamed_second_provider empty_world)
  = Return
      (mkTable "EC2 Instances" (columns ec2_table)
         [["i-0a1"; "t3.micro"; "web1"; "stopped"];
          ["i-0d4"; "t3.nano"; "web1"; "running"]]).
Proof. vm_compute. reflexivity. Qed.

Example scale_up_rejected_log :
  logged
    (snd (ec2_asg_desired_capacity tag_checker update_rejected_provider 1 0 1
            empty_world))
  = [updating_line "web-asg" validation_error].
Proof. vm_compute. reflexivity. Qed.

(** C1: [web1] has been terminated, its start is refused, and [web2],
    which is not marked, is never started. *)
Lemma ec2_sweep_counterexample :
  describe_instances fleet_provider_web1_terminated (calls empty_world)
  = inr fleet
  /\ In web2 (all_instances fleet)
  /\ marked web2 = false
  /\ issued (StartInstances [InstanceId web2]) empty_world
       (snd (start_ec2_instances tag_checker fleet_provider_web1_terminated
               empty_world))
     = 0
  /\ ~ ec2_sweep_as_stated tag_checker fleet_provider_web1_terminated
         empty_world.
Proof.
  assert (Hin : In web2 (all_instances fleet)) by (cbn; tauto).
  repeat split; try (vm_compute; reflexivity); try exact Hin.
  intros Hclaim.
  destruct (Hclaim fleet web2 eq_refl Hin) as [Hstart _].
  vm_compute in Hstart. discriminate Hstart.
Qed.

Lemma fleet_lines_render (verb : string) :
  has_bracket verb = false ->
  lines_render tag_checker verb (all_instances fleet).
Proof.
  intros Hverb. unfold lines_render. cbn [all_instances fleet flat_map
    Instances app filter].
  repeat constructor; apply plain_renders; unfold sweep_text;
    rewrite !has_bracket_app, Hverb; reflexivity.
Qed.

Lemma ec2_sweep_skips_marked_witness :
  describe_instances fleet_provider (calls empty_world) = inr fleet
  /\ Forall (fun i => tagged i = true) (all_instances fleet)
  /\ lines_render tag_checker "Stopped" (all_instances fleet)
  /\ sweep_safe StartInstances fleet empty_world
       (snd (start_ec2_instances tag_checker fleet_provider empty_world))
  /\ sweep_exact StopInstances fleet empty_world
       (snd (stop_ec2_instances tag_checker fleet_provider empty_world)).
Proof.
  assert (Hd : describe_instances fleet_provider (calls empty_world) = inr fleet)
    by reflexivity.
  assert (Ht : Forall (fun i => tagged i = true) (all_instances fleet))
    by (repeat constructor).
  assert (Hl : lines_render tag_checker "Stopped" (all_instances fleet))
    by (apply fleet_lines_render; reflexivity).
  destruct (ec2_sweep_skips_marked tag_checker fleet_provider empty_world fleet
              Hd)
    as [[Hsafe _] Hexact].
  destruct (Hexact Ht) as [_ Hstop].
  exact (conj Hd (conj Ht (conj Hl (conj Hsafe (Hstop Hl))))).
Defined.

Lemma rds_invalid_state_tolerated_witness :
  describe_db_instances second_refused_provider (calls empty_world)
  = inr [orders_db; reports_db]
  /\ plain_identifiers [orders_db; reports_db]
  /\ only_refusals empty_world
       (snd (start_rds_db tag_checker second_refused_provider empty_world))
  /\ refusals_tolerated StartDBInstance start_refusal [orders_db; reports_db]
       empty_world
       (snd (start_rds_db tag_checker second_refused_provider empty_world))
  /\ new_logged empty_world
       (snd (start_rds_db tag_checker second_refused_provider empty_world))
     = [started_line "Started" "orders"; refusal_line start_refusal "reports"].
Proof.
  assert (Hd : describe_db_instances second_refused_provider (calls empty_world)
               = inr [orders_db; reports_db]) by reflexivity.
  assert (Hp : plain_identifiers [orders_db; reports_db])
    by (repeat constructor).
  assert (Ho : only_refusals empty_world
                 (snd (start_rds_db tag_checker second_refused_provider
                         empty_world))).
  { intros rq e Hin. vm_compute in Hin.
    destruct Hin as [H|[H|[H|[]]]]; inversion H. reflexivity. }
  destruct (rds_invalid_state_tolerated tag_checker second_refused_provider
              empty_world [orders_db; reports_db] Hd Hp)
    as (_ & (Hstart & _) & Hexample).
  destruct (Hexample orders_db reports_db already_running eq_refl eq_refl
              eq_refl eq_refl) as (_ & Hlog).
  exact (conj Hd (conj Hp (conj Ho (conj (Hstart Ho) Hlog)))).
Defined.


Lemma empty_enumeration_witness :
  describe_instances empty_provider (calls empty_world) = inr []
  /\ describe_db_instances empty_provider (calls empty_world) = inr []
  /\ describe_auto_scaling_groups empty_provider (calls empty_world) = inr []
  /\ logged (snd (start_ec2_instances tag_checker empty_provider empty_world))
     = [(ERROR, "No EC2 Instance found!")]
  /\ logged (snd (stop_rds_db tag_checker empty_provider empty_world))
     = [(ERROR, "No RDS instances found.")]
  /\ logged
       (snd (ec2_asg_desired_capacity tag_checker empty_provider 0 0 0
               empty_world))
     = [].
Proof.
  destruct (empty_enumeration tag_checker empty_provider empty_world)
    as (Hec2 & Hrds & Hasg).
  destruct (Hec2 eq_refl) as [Hstart _].
  destruct (Hrds eq_refl) as [_ Hstop].
  pose proof (Hasg eq_refl 0%Z 0%Z 0%Z) as Hcap.
  unfold logs_nothing_found in *.
  rewrite Hstart, Hstop, Hcap.
  repeat split; reflexivity.
Defined.

Lemma check_ec2_status_not_total_witness :
  (has_name_tag unnamed = false
   /\ fst (check_ec2_status unnamed_first_provider empty_world)
      = Raise (UnboundLocalError "instance_name"))
  /\ fst (check_ec2_status ec2_outage_provider empty_world) = Raise endpoint_down
  /\ exists table name,
       fst (check_ec2_status unnamed_second_provider empty_world) = Return table
       /\ nth_error (rows table) 0 = Some (ec2_row web1 name)
       /\ nth_error (rows table) 1 = Some (ec2_row unnamed name).
Proof.
  destruct (check_ec2_status_not_total unnamed_first_provider empty_world)
    as (_ & Hfirst & _).
  destruct (check_ec2_status_not_total ec2_outage_provider empty_world)
    as (Houtage & _ & _).
  destruct (check_ec2_status_not_total unnamed_second_provider empty_world)
    as (_ & _ & Hrow).
  pose proof (Hfirst [mkReservation [unnamed; web1]] unnamed [web1]
                eq_refl eq_refl eq_refl) as H1.
  pose proof (Houtage endpoint_down eq_refl) as H2.
  destruct (Hrow [mkReservation [web1; unnamed]] [] web1 unnamed [] _
              eq_refl eq_refl eq_refl eq_refl) as (name & Hi & Hj).
  split; [split; [reflexivity|exact H1]|].
  split; [exact H2|].
  eexists. exists name. split; [reflexivity|]. split; assumption.
Defined.

(** * Further properties *)

(** ** Compute instances: complete passes and lookup errors *)

Lemma extend_nil (w : world) : extend w [] [] = w.
Proof.
  unfold extend. rewrite !app_nil_r. destruct w; reflexivity.
Qed.

Lemma extend_extend (w : world) (cs cs' : history) (ls ls' : list log_record) :
  extend (extend w cs ls) cs' ls' = extend w (cs ++ cs') (ls ++ ls').
Proof.
  unfold extend. cbn [calls logged console]. rewrite <- !app_assoc.
  reflexivity.
Qed.

Lemma push_call_extend (w : world) (rq : request) (o : outcome) :
  push_call w rq o = extend w [(rq, o)] [].
Proof. unfold push_call, extend. rewrite app_nil_r. reflexivity. Qed.

Lemma push_log_extend (w : world) (l : level) (msg : string) :
  push_log w l msg = extend w [] [(l, msg)].
Proof. unfold push_log, extend. rewrite app_nil_r. reflexivity. Qed.

Lemma lookup_error_renders (rich : renderer) (i : Instance) :
  renders rich (str_exn (lookup_error i)).
Proof.
  apply plain_renders. unfold lookup_error.
  destruct (Tags i) as [[|t ts]|]; reflexivity.
Qed.

Section AcceptingSweep.

Variable rich : renderer.
Variable mk : list string -> request.
Variable oracle : history -> list string -> exn + unit.
Variable verb : string.
Hypothesis oracle_accepts : accepts oracle.

Lemma sweep_accepted (insts : list Instance) (w : world) :
  Forall (fun i => tagged i = true) insts ->
  lines_render rich verb insts ->
  for_each insts (sweep_body rich mk oracle verb) w
  = (Return tt,
     extend w (map (fun i => ok (mk [InstanceId i])) (filter unmarked insts))
       (map (sweep_line verb) (filter unmarked insts))).
Proof.
  intros Hall. revert w. unfold lines_render.
  induction Hall as [|i insts Hi _ IH]; intros w Hren; cbn [for_each filter].
  - rewrite extend_nil. reflexivity.
  - unfold bind. rewrite sweep_body_eq. unfold tagged in Hi.
    cbn [filter] in Hren.
    destruct (Tags i) as [[|t ts]|] eqn:ET; try discriminate.
    assert (Hu : unmarked i = negb (is_true_literal (Value t)))
      by (unfold unmarked, marked; now rewrite ET).
    rewrite Hu in *.
    destruct (is_true_literal (Value t)); cbn [negb map] in *.
    + apply IH. exact Hren.
    + inversion Hren as [|? ? Hline Hrest]; subst.
      unfold renders in Hline. rewrite oracle_accepts, Hline, (IH _ Hrest).
      rewrite push_call_extend, push_log_extend, !extend_extend.
      reflexivity.
Qed.

Lemma sweep_lookup_error (pre post : list Instance) (i : Instance) (w : world) :
  Forall (fun j => tagged j = true) pre ->
  lines_render rich verb pre ->
  tagged i = false ->
  for_each (pre ++ i :: post) (sweep_body rich mk oracle verb) w
  = (Raise (lookup_error i),
     extend w (map (fun j => ok (mk [InstanceId j])) (filter unmarked pre))
       (map (sweep_line verb) (filter unmarked pre))).
Proof.
  intros Hpre Hren Hi. rewrite for_each_app. unfold bind at 1.
  rewrite (sweep_accepted pre w Hpre Hren). cbn [for_each]. unfold bind.
  rewrite sweep_body_eq. unfold tagged in Hi. unfold lookup_error.
  destruct (Tags i) as [[|t ts]|]; try discriminate; reflexivity.
Qed.

End AcceptingSweep.

Lemma ec2_sweep_accepted (rich : renderer) (aws : provider)
  (mk : list string -> request)
  (oracle : history -> list string -> exn + unit) (verb nothing : string)
  (w : world) (rs : list Reservation) :
  accepts oracle ->
  describe_instances aws (calls w) = inr rs ->
  rs <> [] ->
  Forall (fun i => tagged i = true) (all_instances rs) ->
  lines_render rich verb (all_instances rs) ->
  sweep_completes mk verb rs w (ec2_sweep rich aws mk oracle verb nothing w).
Proof.
  intros Hacc Hd Hne Hall Hren. unfold sweep_completes, ec2_sweep, try_except.
  rewrite ec2_guarded_eq, Hd. destruct rs as [|r0 rs']; [congruence|].
  cbn [truthy]. cbn zeta.
  rewrite (sweep_accepted rich mk oracle verb Hacc _ _ Hall Hren).
  rewrite push_call_extend, extend_extend. reflexivity.
Qed.

Lemma ec2_sweep_lookup_error (rich : renderer) (aws : provider)
  (mk : list string -> request)
  (oracle : history -> list string -> exn + unit) (verb nothing : string)
  (w : world) (rs : list Reservation) (pre post : list Instance)
  (i : Instance) :
  accepts oracle ->
  describe_instances aws (calls w) = inr rs ->
  all_instances rs = pre ++ i :: post ->
  Forall (fun j => tagged j = true) pre ->
  lines_render rich verb pre ->
  tagged i = false ->
  sweep_stops_at mk verb rs pre i w
    (ec2_sweep rich aws mk oracle verb nothing w).
Proof.
  intros Hacc Hd Hsplit Hpre Hren Hi.
  unfold sweep_stops_at, ec2_sweep, try_except.
  rewrite ec2_guarded_eq, Hd.
  destruct rs as [|r0 rs']; [destruct pre; discriminate|].
  cbn [truthy]. cbn zeta. rewrite Hsplit.
  rewrite (sweep_lookup_error rich mk oracle verb Hacc _ _ _ _ Hpre Hren Hi).
  unfold logger_error. rewrite logger_log_eq.
  rewrite (lookup_error_renders rich i).
  rewrite push_call_extend, push_log_extend, !extend_extend.
  rewrite app_nil_r. reflexivity.
Qed.

(** X1.  When every enumerated instance carries a tag, the provider
    accepts every call and the log handler renders the success line of
    every unmarked instance, the compute start (resp. stop) calls each
    unmarked instance once, in enumeration order, logs one success line per
    call, naming the instance by the value of its first tag, and
    returns. *)
Theorem ec2_pass_completes (rich : renderer) (aws : provider) (w : world)
  (rs : list Reservation) :
  describe_instances aws (calls w) = inr rs ->
  rs <> [] ->
  Forall (fun i => tagged i = true) (all_instances rs) ->
  (accepts (start_instances aws) ->
   lines_render rich "Started" (all_instances rs) ->
   sweep_completes StartInstances "Started" rs w
     (start_ec2_instances rich aws w))
  /\ (accepts (stop_instances aws) ->
      lines_render rich "Stopped" (all_instances rs) ->
      sweep_completes StopInstances "Stopped" rs w
        (stop_ec2_instances rich aws w)).
Proof.
  intros Hd Hne Hall. split; intros Hacc Hren.
  - rewrite start_ec2_instances_sweep. now apply ec2_sweep_accepted.
  - rewrite stop_ec2_instances_sweep. now apply ec2_sweep_accepted.
Qed.

(** X2.  An instance without the ["Tags"] key, or with an empty tag list,
    ends the compute pass: with a provider that accepts every call and a
    log handler that renders the success lines of the unmarked instances
    before it, those instances are called, the [KeyError] or [IndexError]
    of the lookup is logged as the last record, and neither that instance
    nor any instance after it is called. *)
Theorem ec2_pass_lookup_error (rich : renderer) (aws : provider) (w : world)
  (rs : list Reservation) (pre post : list Instance) (i : Instance) :
  describe_instances aws (calls w) = inr rs ->
  all_instances rs = pre ++ i :: post ->
  Forall (fun j => tagged j = true) pre ->
  tagged i = false ->
  (accepts (start_instances aws) ->
   lines_render rich "Started" pre ->
   sweep_stops_at StartInstances "Started" rs pre i w
     (start_ec2_instances rich aws w))
  /\ (accepts (stop_instances aws) ->
      lines_render rich "Stopped" pre ->
      sweep_stops_at StopInstances "Stopped" rs pre i w
        (stop_ec2_instances rich aws w)).
Proof.
  intros Hd Hsplit Hpre Hi. split; intros Hacc Hren.
  - rewrite start_ec2_instances_sweep. eapply ec2_sweep_lookup_error; eauto.
  - rewrite stop_ec2_instances_sweep. eapply ec2_sweep_lookup_error; eauto.
Qed.

(** X3.  When the enumeration itself raises an exception whose text the
    log handler renders, the four start and stop operations make no
    further call, log the exception as one ERROR record and return
    normally. *)
Theorem enumeration_error_swallowed (rich : renderer) (aws : provider)
  (w : world) (e : exn) :
  renders rich (str_exn e) ->
  (describe_instances aws (calls w) = inl e ->
   enumeration_error_logged DescribeInstances e w
     (start_ec2_instances rich aws w)
   /\ enumeration_error_logged DescribeInstances e w
        (stop_ec2_instances rich aws w))
  /\ (describe_db_instances aws (calls w) = inl e ->
      enumeration_error_logged DescribeDBInstances e w
        (start_rds_db rich aws w)
      /\ enumeration_error_logged DescribeDBInstances e w
           (stop_rds_db rich aws w)).
Proof.
  unfold enumeration_error_logged, renders. intros Hren. split; intros Hd.
  - unfold start_ec2_instances, stop_ec2_instances, try_except,
      ec2_describe_instances.
    rewrite !invoke_bind, Hd. unfold logger_error.
    rewrite logger_log_eq, Hren. split; reflexivity.
  - unfold start_rds_db, stop_rds_db, try_except, rds_describe_db_instances.
    rewrite !invoke_bind, Hd. unfold logger_error.
    rewrite logger_log_eq, Hren. split; reflexivity.
Qed.

(** ** Database instances and scaling groups: complete passes *)

Lemma rds_accepted (rich : renderer) (mk : string -> request)
  (oracle : history -> string -> exn + unit) (verb refusal : string)
  (ds : list DBInstance) (w : world) :
  accepts oracle ->
  Forall (fun d => renders rich (started_text verb (DBInstanceIdentifier d)))
    ds ->
  for_each ds (rds_body rich mk oracle verb refusal) w
  = (Return tt,
     extend w (map (fun d => ok (mk (DBInstanceIdentifier d))) ds)
       (map (fun d => started_line verb (DBInstanceIdentifier d)) ds)).
Proof.
  intros Hacc Hren. revert w.
  induction Hren as [|d ds Hd _ IH]; intros w; cbn [for_each map].
  - rewrite extend_nil. reflexivity.
  - unfold bind. rewrite rds_body_eq. cbn zeta. unfold renders in Hd.
    rewrite Hacc, Hd, IH.
    rewrite push_call_extend, push_log_extend, !extend_extend. reflexivity.
Qed.

Lemma rds_sweep_accepted (rich : renderer) (aws : provider)
  (mk : string -> request) (oracle : history -> string -> exn + unit)
  (verb refusal : string) (w : world) (ds : list DBInstance) :
  accepts oracle ->
  has_bracket verb = false ->
  describe_db_instances aws (calls w) = inr ds ->
  ds <> [] ->
  plain_identifiers ds ->
  rds_completes mk verb ds w (rds_sweep rich aws mk oracle verb refusal w).
Proof.
  intros Hacc Hverb Hd Hne Hplain.
  assert (Hren : Forall (fun d => renders rich
                                    (started_text verb (DBInstanceIdentifier d)))
                   ds).
  { eapply Forall_impl; [|exact Hplain]. intros d Hb. cbn beta in Hb.
    apply plain_renders. unfold started_text.
    rewrite !has_bracket_app, Hverb, Hb. reflexivity. }
  unfold rds_completes, rds_sweep, try_except.
  rewrite rds_guarded_eq, Hd. destruct ds as [|d0 ds']; [congruence|].
  cbn [truthy]. cbn zeta.
  rewrite (rds_accepted rich mk oracle verb refusal _ _ Hacc Hren).
  rewrite push_call_extend, extend_extend. reflexivity.
Qed.

(** X4.  When the enumeration returns a non-empty list of instances whose
    identifiers hold no bracket, as RDS identifiers do, and the provider
    accepts every call, the database start (resp. stop) calls every
    instance once, in enumeration order, logs one success line per
    instance and returns. *)
Theorem rds_pass_completes (rich : renderer) (aws : provider) (w : world)
  (ds : list DBInstance) :
  describe_db_instances aws (calls w) = inr ds ->
  ds <> [] ->
  plain_identifiers ds ->
  (accepts (start_db_instance aws) ->
   rds_completes StartDBInstance "Started" ds w (start_rds_db rich aws w))
  /\ (accepts (stop_db_instance aws) ->
      rds_completes StopDBInstance "Stopped" ds w (stop_rds_db rich aws w)).
Proof.
  intros Hd Hne Hplain. split; intros Hacc.
  - rewrite start_rds_db_sweep. now apply rds_sweep_accepted.
  - rewrite stop_rds_db_sweep. now apply rds_sweep_accepted.
Qed.

Lemma asg_accepted (rich : renderer) (aws : provider)
  (desired_count min_count max_count : Z) (gs : list AutoScalingGroup)
  (w : world) :
  (forall h name,
      update_auto_scaling_group aws h name min_count max_count desired_count
      = inr tt) ->
  Forall (fun g => renders rich (updated_text desired_count g)) gs ->
  for_each gs (asg_body rich aws desired_count min_count max_count) w
  = (Return tt,
     extend w
       (map (fun g => ok (update_call desired_count min_count max_count g)) gs)
       (map (updated_line desired_count) gs)).
Proof.
  intros Hacc Hren. revert w.
  induction Hren as [|g gs Hg _ IH]; intros w; cbn [for_each map].
  - rewrite extend_nil. reflexivity.
  - unfold bind. rewrite asg_body_eq. cbn zeta. unfold renders in Hg.
    rewrite Hacc, Hg, IH.
    rewrite push_call_extend, push_log_extend, !extend_extend. reflexivity.
Qed.

(** X5.  When the provider accepts every update and the log handler
    renders the success line of every enumerated group, the capacity
    update sends, for every enumerated group in order, one update that
    carries [min_count] as MinSize, [max_count] as MaxSize and
    [desired_count] as DesiredCapacity, logs for each the change from the
    group's current desired capacity to [desired_count], and returns. *)
Theorem asg_pass_completes (rich : renderer) (aws : provider)
  (desired_count min_count max_count : Z) (w : world)
  (gs : list AutoScalingGroup) :
  describe_auto_scaling_groups aws (calls w) = inr gs ->
  (forall h name,
      update_auto_scaling_group aws h name min_count max_count desired_count
      = inr tt) ->
  Forall (fun g => renders rich (updated_text desired_count g)) gs ->
  asg_completes desired_count min_count max_count gs w
    (ec2_asg_desired_capacity rich aws desired_count min_count max_count w).
Proof.
  intros Hd Hacc Hren. unfold asg_completes.
  rewrite ec2_asg_desired_capacity_eq, Hd,
    (asg_accepted _ _ _ _ _ _ _ Hacc Hren).
  rewrite push_call_extend, extend_extend. reflexivity.
Qed.

(** X6.  Whatever the provider does, the updates of a capacity update are
    those of a prefix of the enumerated groups, in enumeration order and
    one per group; when the operation returns, the prefix is the whole
    list. *)
Theorem asg_updates_in_order (rich : renderer) (aws : provider)
  (desired_count min_count max_count : Z) (w : world)
  (gs : list AutoScalingGroup) :
  describe_auto_scaling_groups aws (calls w) = inr gs ->
  asg_updates_prefix desired_count min_count max_count gs w
    (ec2_asg_desired_capacity rich aws desired_count min_count max_count w).
Proof.
  intros Hd.
  destruct (asg_cases rich aws desired_count min_count max_count w)
    as [(e & He & _)|(gs' & tr & ls & Hd' & Hc & _ & Hr)]; cbn zeta in *;
    [congruence|].
  assert (gs' = gs) by congruence. subst gs'.
  destruct (asg_run_prefix _ _ _ _ _ _ _ _ Hr) as (k & Hk & Htr & Hret).
  exists k. unfold new_requests. rewrite (new_calls_app _ _ _ Hc).
  cbn [map fst]. rewrite Htr. auto.
Qed.

(** ** Status tables *)

Lemma fold_left_add_row {A : Type} (f : A -> list (option string))
  (xs : list A) (t : Table) :
  fold_left (fun table x => add_row table (f x)) xs t
  = mkTable (title t) (columns t)
      (rows t ++ map (fun x => map cell_of (f x)) xs).
Proof.
  revert t. induction xs as [|x xs IH]; intros t; cbn [fold_left map].
  - rewrite app_nil_r. destruct t; reflexivity.
  - rewrite IH. unfold add_row. cbn [title columns rows].
    rewrite app_cons_assoc. reflexivity.
Qed.

Lemma check_rds_status_eq (aws : provider) (w : world) :
  check_rds_status aws w =
  match describe_db_instances aws (calls w) with
  | inl e => (Raise e, push_call w DescribeDBInstances (Raised e))
  | inr ds =>
      (Return (rds_table ds),
       push_call w DescribeDBInstances (Returned (DBInstances ds)))
  end.
Proof.
  unfold check_rds_status, rds_describe_db_instances. rewrite invoke_bind.
  destruct (describe_db_instances aws (calls w)) as [e|ds]; [reflexivity|].
  cbn zeta. destruct ds as [|d0 ds']; [reflexivity|]. cbn [truthy].
  rewrite (for_fold_pure (d0 :: ds') _
             (fun table d =>
                add_row table
                  [Some (DBInstanceIdentifier d); Some (DBInstanceClass d);
                   Some (DBInstanceStatus d)])).
  rewrite fold_left_add_row. reflexivity.
Qed.

(** X7.  [check_rds_status] makes the enumeration call and nothing else: it
    propagates the exception of the enumeration, and otherwise returns the
    table of identifier, class and status, one row per database instance
    in enumeration order. *)
Theorem check_rds_status_table (aws : provider) (w : world) :
  check_rds_status aws w =
  match describe_db_instances aws (calls w) with
  | inl e => (Raise e, push_call w DescribeDBInstances (Raised e))
  | inr ds =>
      (Return (rds_table ds),
       push_call w DescribeDBInstances (Returned (DBInstances ds)))
  end.
Proof.
  rewrite check_rds_status_eq.
  destruct (describe_db_instances aws (calls w)); reflexivity.
Qed.

Lemma check_asg_status_eq (aws : provider) (w : world) :
  check_asg_status aws w =
  match describe_auto_scaling_groups aws (calls w) with
  | inl e => (Raise e, push_call w DescribeAutoScalingGroups (Raised e))
  | inr gs =>
      (Return (asg_table gs),
       push_call w DescribeAutoScalingGroups (Returned (AutoScalingGroups gs)))
  end.
Proof.
  unfold check_asg_status, asg_describe_auto_scaling_groups.
  rewrite invoke_bind.
  destruct (describe_auto_scaling_groups aws (calls w)) as [e|gs];
    [reflexivity|].
  cbn zeta.
  rewrite (for_fold_pure gs _
             (fun table g =>
                add_row table
                  [Some (AutoScalingGroupName g); Some (str_int (MinSize g));
                   Some (str_int (MaxSize g));
                   Some (str_int (DesiredCapacity g))])).
  rewrite fold_left_add_row. reflexivity.
Qed.

(** X8.  [check_asg_status] makes the enumeration call and nothing else: it
    propagates the exception of the enumeration, and otherwise returns the
    table of name, minimum, maximum and desired capacity, one row per
    scaling group in enumeration order. *)
Theorem check_asg_status_table (aws : provider) (w : world) :
  check_asg_status aws w =
  match describe_auto_scaling_groups aws (calls w) with
  | inl e => (Raise e, push_call w DescribeAutoScalingGroups (Raised e))
  | inr gs =>
      (Return (asg_table gs),
       push_call w DescribeAutoScalingGroups (Returned (AutoScalingGroups gs)))
  end.
Proof.
  rewrite check_asg_status_eq.
  destruct (describe_auto_scaling_groups aws (calls w)); reflexivity.
Qed.

Lemma hd_error_app {A : Type} (xs ys : list A) :
  hd_error (xs ++ ys) =
  match hd_error xs with
  | Some x => Some x
  | None => hd_error ys
  end.
Proof. destruct xs; reflexivity. Qed.

Lemma scan_name_tags_last (tags : list Tag) (name : option (option string)) :
  scan_name_tags tags name =
  match last_name_tag tags with
  | Some t => Some (Value t)
  | None => name
  end.
Proof.
  unfold scan_name_tags, last_name_tag. revert name.
  induction tags as [|t tags IH]; intros name; cbn [fold_left filter].
  - reflexivity.
  - rewrite IH. unfold is_name_key at 2.
    destruct (Key t) as [k|]; [|reflexivity].
    destruct (String.eqb k "Name"); [|reflexivity].
    cbn [rev]. rewrite hd_error_app.
    destruct (hd_error (rev (filter is_name_key tags))); reflexivity.
Qed.

Lemma has_name_tag_last (tags : list Tag) :
  existsb is_name_key tags = true -> exists t, last_name_tag tags = Some t.
Proof.
  unfold last_name_tag. intros H. apply existsb_exists in H.
  destruct H as (t & Hin & Ht).
  assert (Hf : In t (rev (filter is_name_key tags))).
  { apply in_rev. rewrite rev_involutive. apply filter_In. auto. }
  destruct (rev (filter is_name_key tags)) as [|t0 l]; [destruct Hf|].
  exists t0. reflexivity.
Qed.

Lemma status_steps_named (insts : list Instance) (f : frame) :
  Forall (fun i => has_name_tag i = true) insts ->
  exists name,
    status_steps insts f
    = inr (name,
           mkTable (title (snd f)) (columns (snd f))
             (rows (snd f) ++ map (fun i => ec2_row i (given_name i)) insts)).
Proof.
  intros Hall. revert f.
  induction Hall as [|i insts Hi _ IH]; intros f; cbn [status_steps map].
  - exists (fst f). rewrite app_nil_r. destruct f as [n [t c r]]. reflexivity.
  - unfold status_step, given_name. unfold has_name_tag in Hi.
    destruct (Tags i) as [tags|]; [|discriminate].
    rewrite scan_name_tags_last.
    destruct (has_name_tag_last tags Hi) as (t & Ht). rewrite Ht.
    destruct (IH (Some (Value t),
                  add_row (snd f)
                    [Some (InstanceId i); Some (InstanceType i); Value t;
                     Some (StateName i)]))
      as (name & Hsteps).
    exists name. rewrite Hsteps. cbn [snd add_row title columns rows].
    rewrite app_cons_assoc. reflexivity.
Qed.

(** X9.  When every enumerated instance has a tag with key ["Name"],
    [check_ec2_status] makes the enumeration call and nothing else and
    returns the table of identifier, type, name and state, one row per
    instance in enumeration order; the name shown is the value of the
    instance's last ["Name"] tag, and an empty cell when that tag has no
    value. *)
Theorem check_ec2_status_table (aws : provider) (w : world)
  (rs : list Reservation) :
  describe_instances aws (calls w) = inr rs ->
  Forall (fun i => has_name_tag i = true) (all_instances rs) ->
  check_ec2_status aws w
  = (Return (ec2_named_table rs),
     push_call w DescribeInstances (Returned (Reservations rs))).
Proof.
  intros Hd Hall. rewrite check_ec2_status_eq, Hd.
  destruct (status_steps_named (all_instances rs) (None, ec2_table) Hall)
    as (name & Hsteps).
  rewrite Hsteps. reflexivity.
Qed.

Lemma print_table_eq (rich : renderer) (t : Table) (w : world) :
  print_table rich t w = printed rich t w.
Proof. reflexivity. Qed.

(** X10.  [check_status] runs the compute, database and scaling-group
    queries in that order and prints the table of each before the next
    query starts: the table of [status_steps], then [rds_table], then
    [asg_table].  It ends at the first query that raises or the first
    table that the console rejects, with that exception and with only the
    tables before it printed; it writes no log record, and it returns
    exactly when all three tables are printed. *)
Theorem check_status_prints_in_order (rich : renderer) (aws : provider)
  (w : world) :
  check_status rich aws w =
  match describe_instances aws (calls w) with
  | inl e => (Raise e, push_call w DescribeInstances (Raised e))
  | inr rs =>
      let w1 := push_call w DescribeInstances (Returned (Reservations rs)) in
      match status_steps (all_instances rs) (None, ec2_table) with
      | inl e => (Raise e, w1)
      | inr f =>
          match table_error rich (snd f) with
          | Some m => (Raise (MarkupError m), w1)
          | None =>
              let w2 := push_console w1 (PrintTable (snd f)) in
              match describe_db_instances aws (calls w2) with
              | inl e => (Raise e, push_call w2 DescribeDBInstances (Raised e))
              | inr ds =>
                  let w3 :=
                    push_call w2 DescribeDBInstances
                      (Returned (DBInstances ds)) in
                  match table_error rich (rds_table ds) with
                  | Some m => (Raise (MarkupError m), w3)
                  | None =>
                      let w4 := push_console w3 (PrintTable (rds_table ds)) in
                      match describe_auto_scaling_groups aws (calls w4) with
                      | inl e =>
                          (Raise e,
                           push_call w4 DescribeAutoScalingGroups (Raised e))
                      | inr gs =>
                          let w5 :=
                            push_call w4 DescribeAutoScalingGroups
                              (Returned (AutoScalingGroups gs)) in
                          match table_error rich (asg_table gs) with
                          | Some m => (Raise (MarkupError m), w5)
                          | None =>
                              (Return tt,
                               push_console w5 (PrintTable (asg_table gs)))
                          end
                      end
                  end
              end
          end
      end
  end.
Proof.
  unfold check_status, bind at 1. rewrite check_ec2_status_eq.
  destruct (describe_instances aws (calls w)) as [e1|rs]; [reflexivity|].
  destruct (status_steps (all_instances rs) (None, ec2_table)) as [e1|f1];
    cbn [lift]; [reflexivity|].
  cbv zeta. unfold bind at 1. rewrite print_table_eq. unfold printed at 1.
  cbn [snd].
  destruct (table_error rich (snd f1)) as [m1|]; [reflexivity|].
  unfold bind at 1. rewrite check_rds_status_eq.
  match goal with
  | |- context [describe_db_instances aws ?h] =>
      destruct (describe_db_instances aws h) as [e2|ds]
  end; [reflexivity|].
  unfold bind at 1. rewrite print_table_eq. unfold printed at 1.
  destruct (table_error rich (rds_table ds)) as [m2|]; [reflexivity|].
  unfold bind at 1. rewrite check_asg_status_eq.
  match goal with
  | |- context [describe_auto_scaling_groups aws ?h] =>
      destruct (describe_auto_scaling_groups aws h) as [e3|gs]
  end; [reflexivity|].
  rewrite print_table_eq. unfold printed.
  destruct (table_error rich (asg_table gs)) as [m3|]; reflexivity.
Qed.

(** ** The menu, further *)

Lemma with_progress_eq (description : string) (body : M unit) (w : world) :
  with_progress description body w =
  match body (entering description w) with
  | (Return a, w1) => (Return a, push_console w1 ProgressExit)
  | (Raise e, w1) => (Raise e, push_console w1 ProgressExit)
  end.
Proof.
  unfold with_progress, with_exit, bind, emit, entering.
  destruct (body _) as [[a|e] w1]; reflexivity.
Qed.

Lemma run_choice_eq (rich : renderer) (aws : provider) (choice : string)
  (w : world) :
  run_choice rich aws choice w =
  match operation rich aws choice with
  | Some op => after_operation (op (at_dispatch choice w))
  | None => (Return tt, push_console w press_enter)
  end.
Proof.
  unfold run_choice, operation, at_dispatch, after_operation.
  repeat match goal with
         | |- context [String.eqb choice ?c] => destruct (String.eqb choice c)
         end;
    try (unfold bind at 1; rewrite with_progress_eq;
         match goal with
         | |- context [?op rich aws ?w1] =>
             destruct (op rich aws w1) as [[[]|e] w2]
         | |- context [ec2_asg_desired_capacity rich aws ?d ?mn ?mx ?w1] =>
             destruct (ec2_asg_desired_capacity rich aws d mn mx w1)
               as [[[]|e] w2]
         end; reflexivity).
  - unfold clear_screen, bind at 1, emit at 1. unfold bind at 1, emit at 1.
    unfold bind at 1. rewrite with_progress_eq.
    match goal with
    | |- context [check_status rich aws ?w1] =>
        destruct (check_status rich aws w1) as [[[]|e] w2]
    end; reflexivity.
  - reflexivity.
Qed.

(** X11.  For a choice that is none of the menu entries 0 to 8,
    [run_choice] calls no client and logs nothing: it shows the
    "Press Enter" prompt and returns. *)
Theorem run_choice_unknown (rich : renderer) (aws : provider)
  (choice : string) (w : world) :
  ~ In choice menu_choices ->
  run_choice rich aws choice w = (Return tt, push_console w press_enter).
Proof.
  intros Hout. rewrite run_choice_eq. unfold operation.
  repeat match goal with
         | |- context [String.eqb choice ?c] =>
             destruct (String.eqb_spec choice c) as [->|_];
               [exfalso; apply Hout; unfold menu_choices; cbn [In]; tauto|]
         end.
  reflexivity.
Qed.

(** X12.  For each menu entry, [run_choice] runs the dispatched operation
    inside the progress display, leaves the display whether the operation
    returned or raised, and shows the "Press Enter" prompt only after a
    normal return; an exception of the operation goes on to the caller
    with the display already left. *)
Theorem run_choice_dispatch (rich : renderer) (aws : provider)
  (choice : string) (op : M unit) (w : world) :
  operation rich aws choice = Some op ->
  run_choice rich aws choice w = after_operation (op (at_dispatch choice w)).
Proof.
  intros Hop. rewrite run_choice_eq, Hop. reflexivity.
Qed.

Lemma after_operation_calls (run : result unit * world) :
  calls (snd (after_operation run)) = calls (snd run).
Proof. destruct run as [[[]|e] w1]; reflexivity. Qed.

(** X13.  The two scaling entries of the menu use the Auto Scaling client
    only: entry 7 asks every group it updates for min=0, max=1, desired=1,
    entry 8 for min=0, max=0, desired=0. *)
Theorem scale_choices_capacity (rich : renderer) (aws : provider) (w : world) :
  only_capacity_phase 1 0 1 w (run_choice rich aws "7" w)
  /\ only_capacity_phase 0 0 0 w (run_choice rich aws "8" w).
Proof.
  unfold only_capacity_phase. rewrite !run_choice_eq.
  cbn [operation String.eqb Ascii.eqb Bool.eqb].
  rewrite !after_operation_calls. split.
  - destruct (asg_capacity_phase rich aws 1 0 1 (at_dispatch "7" w))
      as (t & Hc & Hp).
    exists t. split; [exact Hc|exact Hp].
  - destruct (asg_capacity_phase rich aws 0 0 0 (at_dispatch "8" w))
      as (t & Hc & Hp).
    exists t. split; [exact Hc|exact Hp].
Qed.

(** ** Errors, when the handler renders their text *)

(** X15.  In the database start and stop, a call that raises anything but
    an invalid-state refusal is the last call of the run, so no later
    instance is attempted; when the log handler renders the text of the
    exception, that text is the last log record and the operation returns
    normally. *)
Theorem rds_other_error_aborts (rich : renderer) (aws : provider) (w : world) :
  rds_abort rich StartDBInstance w (start_rds_db rich aws w)
  /\ rds_abort rich StopDBInstance w (stop_rds_db rich aws w).
Proof.
  rewrite start_rds_db_sweep, stop_rds_db_sweep.
  split; apply rds_sweep_abort; discriminate.
Qed.

(** X16.  In the capacity update, a failed enumeration whose error line
    the log handler renders is logged and raised again, with no further
    call; a failed update is the last call of the run, so no later group
    is updated, and when its error line is rendered it is the last log
    record and the exception is raised again. *)
Theorem asg_failure_logged_and_reraised (rich : renderer) (aws : provider)
  (desired_count min_count max_count : Z) (w : world) :
  asg_reraises rich aws w
    (ec2_asg_desired_capacity rich aws desired_count min_count max_count w).
Proof.
  split.
  - intros e He Hren. rewrite ec2_asg_desired_capacity_eq, He.
    unfold renders in Hren. rewrite Hren. unfold new_calls, new_logged.
    cbn [fst snd]. autorewrite with world.
    rewrite !skipn_app, !skipn_all, !Nat.sub_diag. auto.
  - destruct (asg_cases rich aws desired_count min_count max_count w)
      as [(e0 & Hd & Hc & _)|(gs & tr & ls & Hd & Hc & Hl & Hr)];
      cbn zeta in *; intros pre name mn mx d e post Hsplit;
      rewrite (new_calls_app _ _ _ Hc) in Hsplit.
    + destruct pre as [|c pre]; inversion Hsplit. destruct pre; discriminate.
    + rewrite (new_logged_app _ _ _ Hl).
      destruct pre as [|c pre]; inversion Hsplit as [[Hhead Htr]].
      eapply asg_run_failure; eauto.
Qed.


(** ** One log record per call *)

Lemma rds_run_lengths (rich : renderer) (mk : string -> request)
  (verb refusal : string) (ds : list DBInstance) (tr : history)
  (ls : list log_record) (r : result unit) :
  rds_run rich mk verb refusal ds tr ls r ->
  List.length tr
  = List.length ls + match r with Raise _ => 1 | Return _ => 0 end.
Proof.
  induction 1; cbn [List.length]; try rewrite IHrds_run; reflexivity.
Qed.

Lemma asg_run_lengths (rich : renderer) (desired_count min_count max_count : Z)
  (gs : list AutoScalingGroup) (tr : history) (ls : list log_record)
  (r : result unit) :
  asg_run rich desired_count min_count max_count gs tr ls r ->
  (forall m, r <> Raise (MarkupError m)) ->
  List.length tr = List.length ls.
Proof.
  induction 1 as [|g rest tr ls r _ _ IH|g rest m _|g rest e _|g rest e m _];
    intros Hr; cbn [List.length].
  - reflexivity.
  - rewrite (IH Hr). reflexivity.
  - exfalso. eapply Hr. reflexivity.
  - reflexivity.
  - exfalso. eapply Hr. reflexivity.
Qed.

Lemma rds_sweep_one_record_per_call (rich : renderer) (aws : provider)
  (mk : string -> request) (oracle : history -> string -> exn + unit)
  (verb refusal : string) (w : world) (ds : list DBInstance) :
  describe_db_instances aws (calls w) = inr ds ->
  ds <> [] ->
  fst (rds_sweep rich aws mk oracle verb refusal w) = Return tt ->
  one_record_per_call w (rds_sweep rich aws mk oracle verb refusal w).
Proof.
  intros Hd Hne.
  destruct (rds_sweep_cases rich aws mk oracle verb refusal w)
    as [(e & He & _)|(ds' & tr & ls & r & Hd' & Hc & Hr & Hl & Hres)];
    [congruence|].
  assert (ds' = ds) by congruence. subst ds'.
  unfold one_record_per_call.
  rewrite (new_calls_app _ _ _ Hc), (new_logged_app _ _ _ Hl), Hres.
  cbn [List.length]. rewrite length_app, (rds_run_lengths _ _ _ _ _ _ _ _ Hr).
  destruct ds as [|d0 ds']; [congruence|]. cbn [truthy].
  destruct r as [[]|e]; unfold closing; cbn [fst snd List.length].
  - reflexivity.
  - destruct (markup_error rich (format_record (str_exn e)));
      cbn [fst snd List.length]; [discriminate|reflexivity].
Qed.

(** X14.  Once the enumeration has returned (a non-empty list, for the
    database operations), a database start or stop that returns, and a
    capacity update that does not end on an exception of the log handler,
    have written exactly one log record for every per-resource call they
    made, whether the call returned or raised. *)
Theorem one_log_record_per_call (rich : renderer) (aws : provider)
  (w : world) :
  (forall ds,
      describe_db_instances aws (calls w) = inr ds -> ds <> [] ->
      (fst (start_rds_db rich aws w) = Return tt ->
       one_record_per_call w (start_rds_db rich aws w))
      /\ (fst (stop_rds_db rich aws w) = Return tt ->
          one_record_per_call w (stop_rds_db rich aws w)))
  /\ (forall gs desired_count min_count max_count,
        describe_auto_scaling_groups aws (calls w) = inr gs ->
        (forall m,
            fst (ec2_asg_desired_capacity rich aws desired_count min_count
                   max_count w)
            <> Raise (MarkupError m)) ->
        one_record_per_call w
          (ec2_asg_desired_capacity rich aws desired_count min_count
             max_count w)).
Proof.
  split.
  - intros ds Hd Hne. rewrite start_rds_db_sweep, stop_rds_db_sweep.
    split; intros Hret; eapply rds_sweep_one_record_per_call; eauto.
  - intros gs desired_count min_count max_count Hd Hres.
    destruct (asg_cases rich aws desired_count min_count max_count w)
      as [(e & He & _)|(gs' & tr & ls & _ & Hc & Hl & Hr)]; cbn zeta in *;
      [congruence|].
    unfold one_record_per_call.
    rewrite (new_calls_app _ _ _ Hc), (new_logged_app _ _ _ Hl).
    cbn [List.length].
    rewrite (asg_run_lengths _ _ _ _ _ _ _ _ Hr Hres). reflexivity.
Qed.

(** ** Concrete runs of the further properties *)

Lemma ec2_pass_completes_witness :
  sweep_completes StartInstances "Started" fleet empty_world
    (start_ec2_instances tag_checker site_provider empty_world)
  /\ sweep_completes StopInstances "Stopped" fleet empty_world
       (stop_ec2_instances tag_checker site_provider empty_world).
Proof.
  assert (Hd : describe_instances site_provider (calls empty_world) = inr fleet)
    by reflexivity.
  assert (Hne : fleet <> []) by discriminate.
  assert (Ht : Forall (fun i => tagged i = true) (all_instances fleet))
    by (repeat constructor).
  assert (Hstart : accepts (start_instances site_provider))
    by (intros h ids; reflexivity).
  assert (Hstop : accepts (stop_instances site_provider))
    by (intros h ids; reflexivity).
  assert (Hl1 : lines_render tag_checker "Started" (all_instances fleet))
    by (apply fleet_lines_render; reflexivity).
  assert (Hl2 : lines_render tag_checker "Stopped" (all_instances fleet))
    by (apply fleet_lines_render; reflexivity).
  destruct (ec2_pass_completes tag_checker site_provider empty_world fleet
              Hd Hne Ht)
    as [H1 H2].
  exact (conj (H1 Hstart Hl1) (H2 Hstop Hl2)).
Defined.

Lemma ec2_pass_lookup_error_witness :
  snd (start_ec2_instances tag_checker bare_fleet_provider empty_world)
  = extend empty_world
      [(DescribeInstances, Returned (Reservations bare_fleet));
       (StartInstances ["i-0a1"], Returned Done)]
      [(INFO, "Started EC2 instance i-0a1 (web1)"); (ERROR, "'Tags'")]
  /\ sweep_stops_at StopInstances "Stopped" bare_fleet [web1] bare empty_world
       (stop_ec2_instances tag_checker bare_fleet_provider empty_world).
Proof.
  assert (Hd : describe_instances bare_fleet_provider (calls empty_world)
               = inr bare_fleet) by reflexivity.
  assert (Hsplit : all_instances bare_fleet = [web1] ++ bare :: [web2])
    by reflexivity.
  assert (Hpre : Forall (fun j => tagged j = true) [web1])
    by (repeat constructor).
  assert (Hbare : tagged bare = false) by reflexivity.
  assert (Hstart : accepts (start_instances bare_fleet_provider))
    by (intros h ids; reflexivity).
  assert (Hstop : accepts (stop_instances bare_fleet_provider))
    by (intros h ids; reflexivity).
  assert (Hl1 : lines_render tag_checker "Started" [web1])
    by (repeat constructor).
  assert (Hl2 : lines_render tag_checker "Stopped" [web1])
    by (repeat constructor).
  destruct (ec2_pass_lookup_error tag_checker bare_fleet_provider empty_world
              bare_fleet [web1] [web2] bare Hd Hsplit Hpre Hbare) as [H1 H2].
  split; [|exact (H2 Hstop Hl2)].
  pose proof (H1 Hstart Hl1) as Hrun. unfold sweep_stops_at in Hrun.
  rewrite Hrun. reflexivity.
Defined.

Lemma enumeration_error_swallowed_witness :
  renders tag_checker (str_exn endpoint_down)
  /\ enumeration_error_logged DescribeInstances endpoint_down empty_world
       (start_ec2_instances tag_checker ec2_outage_provider empty_world)
  /\ enumeration_error_logged DescribeDBInstances endpoint_down empty_world
       (stop_rds_db tag_checker rds_outage_provider empty_world).
Proof.
  assert (Hr : renders tag_checker (str_exn endpoint_down))
    by (vm_compute; reflexivity).
  destruct (enumeration_error_swallowed tag_checker ec2_outage_provider
              empty_world endpoint_down Hr) as [Hec2 _].
  destruct (enumeration_error_swallowed tag_checker rds_outage_provider
              empty_world endpoint_down Hr) as [_ Hrds].
  destruct (Hec2 eq_refl) as [Hstart _].
  destruct (Hrds eq_refl) as [_ Hstop].
  exact (conj Hr (conj Hstart Hstop)).
Defined.

Lemma rds_pass_completes_witness :
  plain_identifiers [orders_db; reports_db]
  /\ rds_completes StartDBInstance "Started" [orders_db; reports_db]
       empty_world (start_rds_db tag_checker site_provider empty_world)
  /\ rds_completes StopDBInstance "Stopped" [orders_db; reports_db]
       empty_world (stop_rds_db tag_checker site_provider empty_world).
Proof.
  assert (Hd : describe_db_instances site_provider (calls empty_world)
               = inr [orders_db; reports_db]) by reflexivity.
  assert (Hne : [orders_db; reports_db] <> []) by discriminate.
  assert (Hp : plain_identifiers [orders_db; reports_db])
    by (repeat constructor).
  assert (Hstart : accepts (start_db_instance site_provider))
    by (intros h id; reflexivity).
  assert (Hstop : accepts (stop_db_instance site_provider))
    by (intros h id; reflexivity).
  destruct (rds_pass_completes tag_checker site_provider empty_world
              [orders_db; reports_db] Hd Hne Hp) as [H1 H2].
  exact (conj Hp (conj (H1 Hstart) (H2 Hstop))).
Defined.

Lemma asg_pass_completes_witness :
  asg_completes 1 0 1 [web_asg; batch_asg] empty_world
    (ec2_asg_desired_capacity tag_checker site_provider 1 0 1 empty_world).
Proof.
  apply (asg_pass_completes tag_checker site_provider 1 0 1 empty_world
           [web_asg; batch_asg]).
  - reflexivity.
  - intros h name. reflexivity.
  - repeat constructor.
Defined.

Lemma asg_updates_in_order_witness :
  asg_updates_prefix 1 0 1 [web_asg; batch_asg] empty_world
    (ec2_asg_desired_capacity tag_checker update_rejected_provider 1 0 1
       empty_world).
Proof.
  apply (asg_updates_in_order tag_checker update_rejected_provider 1 0 1
           empty_world [web_asg; batch_asg]).
  reflexivity.
Defined.

Lemma check_ec2_status_table_witness :
  check_ec2_status fleet_provider empty_world
  = (Return (ec2_named_table fleet),
     push_call empty_world DescribeInstances (Returned (Reservations fleet))).
Proof.
  apply (check_ec2_status_table fleet_provider empty_world fleet).
  - reflexivity.
  - repeat constructor.
Defined.

Lemma run_choice_unknown_witness :
  run_choice tag_checker site_provider "9" empty_world
  = (Return tt, push_console empty_world press_enter).
Proof.
  apply (run_choice_unknown tag_checker site_provider "9" empty_world).
  unfold menu_choices. cbn [In].
  intros [H|[H|[H|[H|[H|[H|[H|[H|[H|[]]]]]]]]]]; discriminate H.
Defined.

Lemma run_choice_dispatch_witness :
  run_choice tag_checker asg_outage_provider "7" empty_world
  = after_operation
      (ec2_asg_desired_capacity tag_checker asg_outage_provider 1 0 1
         (at_dispatch "7" empty_world)).
Proof.
  apply (run_choice_dispatch tag_checker asg_outage_provider "7").
  reflexivity.
Defined.

Lemma one_log_record_per_call_witness :
  fst (start_rds_db tag_checker mixed_faults_provider empty_world) = Return tt
  /\ one_record_per_call empty_world
       (start_rds_db tag_checker mixed_faults_provider empty_world)
  /\ fst (ec2_asg_desired_capacity tag_checker update_rejected_provider 1 0 1
            empty_world)
     = Raise validation_error
  /\ one_record_per_call empty_world
       (ec2_asg_desired_capacity tag_checker update_rejected_provider 1 0 1
          empty_world).
Proof.
  destruct (one_log_record_per_call tag_checker mixed_faults_provider
              empty_world)
    as [Hrds _].
  destruct (one_log_record_per_call tag_checker update_rejected_provider
              empty_world)
    as [_ Hasg].
  assert (Hne : [orders_db; reports_db; archive_db] <> []) by discriminate.
  assert (Hret : fst (start_rds_db tag_checker mixed_faults_provider
                        empty_world) = Return tt)
    by (vm_compute; reflexivity).
  assert (Hval : fst (ec2_asg_desired_capacity tag_checker
                        update_rejected_provider 1 0 1 empty_world)
                 = Raise validation_error)
    by (vm_compute; reflexivity).
  assert (Hno : forall m,
             fst (ec2_asg_desired_capacity tag_checker update_rejected_provider
                    1 0 1 empty_world)
             <> Raise (MarkupError m)).
  { intros m H. rewrite Hval in H. discriminate H. }
  destruct (Hrds [orders_db; reports_db; archive_db] eq_refl Hne)
    as [Hstart _].
  exact (conj Hret (conj (Hstart Hret)
           (conj Hval (Hasg [web_asg; batch_asg] 1%Z 0%Z 1%Z eq_refl Hno)))).
Defined.

Lemma rds_other_error_aborts_witness :
  new_calls empty_world
    (snd (start_rds_db tag_checker mixed_faults_provider empty_world))
  = [(DescribeDBInstances,
      Returned (DBInstances [orders_db; reports_db; archive_db]));
     (StartDBInstance "orders", Raised already_running)]
      ++ (StartDBInstance "reports", Raised access_denied) :: []
  /\ invalid_state access_denied = false
  /\ renders tag_checker (str_exn access_denied)
  /\ fst (start_rds_db tag_checker mixed_faults_provider empty_world)
     = Return tt
  /\ exists ls,
       new_logged empty_world
         (snd (start_rds_db tag_checker mixed_faults_provider empty_world))
       = ls ++ [(ERROR, str_exn access_denied)].
Proof.
  destruct (rds_other_error_aborts tag_checker mixed_faults_provider
              empty_world)
    as [Habort _].
  assert (Hsplit :
            new_calls empty_world
              (snd (start_rds_db tag_checker mixed_faults_provider empty_world))
            = [(DescribeDBInstances,
                Returned (DBInstances [orders_db; reports_db; archive_db]));
               (StartDBInstance "orders", Raised already_running)]
                ++ (StartDBInstance "reports", Raised access_denied) :: [])
    by (vm_compute; reflexivity).
  assert (Hr : renders tag_checker (str_exn access_denied))
    by (vm_compute; reflexivity).
  destruct (Habort _ _ _ _ Hsplit eq_refl) as [_ Hlog].
  destruct (Hlog Hr) as [Hret Hlast].
  exact (conj Hsplit (conj eq_refl (conj Hr (conj Hret Hlast)))).
Defined.

Lemma asg_failure_logged_and_reraised_witness :
  (describe_auto_scaling_groups asg_outage_provider (calls empty_world)
   = inl endpoint_down
   /\ renders tag_checker (retrieving_text endpoint_down)
   /\ fst (ec2_asg_desired_capacity tag_checker asg_outage_provider 1 0 1
             empty_world)
      = Raise endpoint_down
   /\ new_logged empty_world
        (snd (ec2_asg_desired_capacity tag_checker asg_outage_provider 1 0 1
                empty_world))
      = [retrieving_line endpoint_down])
  /\ (new_calls empty_world
        (snd (ec2_asg_desired_capacity tag_checker update_rejected_provider
                1 0 1 empty_world))
      = [(DescribeAutoScalingGroups,
          Returned (AutoScalingGroups [web_asg; batch_asg]))]
          ++ (UpdateAutoScalingGroup "web-asg" 0 1 1, Raised validation_error)
               :: []
      /\ renders tag_checker (updating_text "web-asg" validation_error)
      /\ fst (ec2_asg_desired_capacity tag_checker update_rejected_provider
                1 0 1 empty_world)
         = Raise validation_error
      /\ exists ls,
           new_logged empty_world
             (snd (ec2_asg_desired_capacity tag_checker
                     update_rejected_provider 1 0 1 empty_world))
           = ls ++ [updating_line "web-asg" validation_error]).
Proof.
  destruct (asg_failure_logged_and_reraised tag_checker asg_outage_provider
              1 0 1 empty_world)
    as [Henum _].
  assert (Hr1 : renders tag_checker (retrieving_text endpoint_down))
    by (vm_compute; reflexivity).
  assert (Hr2 : renders tag_checker (updating_text "web-asg" validation_error))
    by (vm_compute; reflexivity).
  destruct (Henum endpoint_down eq_refl Hr1) as (Hraise & _ & Hlog).
  destruct (asg_failure_logged_and_reraised tag_checker
              update_rejected_provider 1 0 1 empty_world) as [_ Hupdate].
  assert (Hsplit :
            new_calls empty_world
              (snd (ec2_asg_desired_capacity tag_checker
                      update_rejected_provider 1 0 1 empty_world))
            = [(DescribeAutoScalingGroups,
                Returned (AutoScalingGroups [web_asg; batch_asg]))]
                ++ (UpdateAutoScalingGroup "web-asg" 0 1 1,
                    Raised validation_error) :: [])
    by (vm_compute; reflexivity).
  destruct (Hupdate _ _ _ _ _ _ _ Hsplit) as (_ & Hrest).
  destruct (Hrest Hr2) as (Hres & Hlast).
  exact (conj (conj eq_refl (conj Hr1 (conj Hraise Hlog)))
           (conj Hsplit (conj Hr2 (conj Hres Hlast)))).
Defined.

Example status_rows_fleet :
  rows (ec2_named_table fleet)
  = [["i-0a1"; "t3.micro"; "web1"; "stopped"];
     ["i-0c3"; "t3.large"; "ecs-node"; "running"];
     ["i-0b2"; "t3.micro"; "web2"; "stopped"]].
Proof. reflexivity. Qed.

Example check_status_site_console :
  console (snd (check_status tag_checker site_provider empty_world))
  = [PrintTable (ec2_named_table fleet);
     PrintTable (rds_table [orders_db; reports_db]);
     PrintTable (asg_table [web_asg; batch_asg])].
Proof. vm_compute. reflexivity. Qed.

(** The table of [prod_fleet] holds a cell that the console rejects:
    nothing is printed and the database query is not made. *)
Example check_status_prod_fleet :
  exists m,
    check_status tag_checker prod_fleet_provider empty_world
    = (Raise (MarkupError m),
       mkWorld [(DescribeInstances, Returned (Reservations prod_fleet))] [] []).
Proof. eexists. vm_compute. reflexivity. Qed.

Example scale_up_site_console :
  console (snd (run_choice tag_checker site_provider "7" empty_world))
  = [ProgressEnter;
     ProgressAddTask "[bold cyan]Scaling Auto Scaling Group up";
     ProgressExit; press_enter].
Proof. vm_compute. reflexivity. Qed.

Example scale_up_outage_console :
  console (snd (run_choice tag_checker asg_outage_provider "7" empty_world))
  = [ProgressEnter;
     ProgressAddTask "[bold cyan]Scaling Auto Scaling Group up";
     ProgressExit].
Proof. vm_compute. reflexivity. Qed.
